(** * Embedded light scheduler: relay bridge and schedule evaluator

    A shallow embedding of the two programs of the repository,

    - [src/backend/websocket_server.py]: the WebSocket gateway that relays
      schedule updates to the MQTT topic (module [Backend]);
    - [src/subscriber/mqtt_subscriber.py]: the controller that stores the
      schedule received from the topic and drives the relay over the serial
      line once per tick (module [Subscriber]).

    Global variables of the Python modules become fields of a state record
    that is threaded through a small state-and-trace monad; calls into the
    outside world (serial port, MQTT client, WebSocket, clocks) become trace
    events whose outcome is supplied by an environment record.  Callbacks
    and loop iterations are taken as atomic steps. *)

From Stdlib Require Import QArith Ascii.
From stdpp Require Import base option list strings gmap.

Set Warnings "-register-all".
#[local] Open Scope string_scope.

(** ** Python values decoded from JSON *)

Module Json.

(** What [json.loads] returns: [None], [bool], a number (kept as its
    lexeme), [str], [list] or [dict]. *)
Inductive json : Type :=
| JNull
| JBool (b : bool)
| JNum (lexeme : string)
| JStr (s : string)
| JArr (items : list json)
| JObj (members : gmap string json).

(** [isinstance(v, dict)] *)
Definition is_dict (v : json) : bool :=
  match v with JObj _ => true | _ => false end.

(** [key in v], for a [v] already known to be a dict. *)
Definition has_key (key : string) (v : json) : bool :=
  match v with
  | JObj members => bool_decide (is_Some (members !! key))
  | _ => false
  end.

(** [v[key]] *)
Definition get_item (key : string) (v : json) : option json :=
  match v with JObj members => members !! key | _ => None end.

(** What a call of the decoder comes to: a value, [json.JSONDecodeError],
    or another exception ([ValueError] for an integer past the digit limit,
    [RecursionError], [UnicodeDecodeError] for bytes that are not text). *)
Inductive decoded : Type :=
| Decoded (v : json)
| DecodeError
| DecodeRaised.

(** The decoder, [json.loads] of the Python standard library (in the
    controller [msg.payload.decode("utf-8")] followed by [json.loads]), is an
    interface of the embedding.  Its argument is the message as received. *)
Class JsonDecoder := json_loads : string → decoded.

(** *** A decoder for ASCII documents

    Recursive descent over the grammar [json.loads] reads (objects, arrays,
    strings with the single-character escapes, numbers, [true], [false],
    [null], and the constants [NaN], [Infinity], [-Infinity]); a later
    duplicate key overrides an earlier one, as in a Python dict, and an
    integer of more than 4300 digits raises [ValueError] where it is read.
    It stands for [json.loads] on ASCII documents without [\u] escapes and
    nested less deeply than the interpreter's recursion limit; every
    evaluation below is at such a document. *)

(** Progress of the scanner: a result, malformed text, or the exception
    raised by an over-long integer. *)
Inductive scan (A : Type) : Type :=
| Scanned (a : A)
| Malformed
| Overflow.
Arguments Scanned {A} a.
Arguments Malformed {A}.
Arguments Overflow {A}.

#[global] Instance scan_ret : MRet scan := λ A a, Scanned a.
#[global] Instance scan_bind : MBind scan := λ A B f m,
  match m with
  | Scanned a => f a
  | Malformed => Malformed
  | Overflow => Overflow
  end.

Definition expect {A} (o : option A) : scan A :=
  match o with Some a => Scanned a | None => Malformed end.

(** [sys.int_info.default_max_str_digits] *)
Definition MAX_STR_DIGITS : nat := 4300.

Definition dquote : ascii := "034"%char.
Definition backslash : ascii := "092"%char.

Definition is_ws (c : ascii) : bool :=
  match c with
  | " "%char | "009"%char | "010"%char | "013"%char => true
  | _ => false
  end.

Fixpoint skip_ws (s : list ascii) : list ascii :=
  match s with
  | c :: r => if is_ws c then skip_ws r else s
  | [] => []
  end.

Definition is_digit (c : ascii) : bool :=
  (48 <=? nat_of_ascii c)%nat && (nat_of_ascii c <=? 57)%nat.

Fixpoint take_digits (s : list ascii) : list ascii * list ascii :=
  match s with
  | c :: r =>
      if is_digit c then let '(ds, r') := take_digits r in (c :: ds, r')
      else ([], s)
  | [] => ([], [])
  end.

Definition unescape (c : ascii) : option ascii :=
  match c with
  | "034"%char => Some "034"%char
  | "092"%char => Some "092"%char
  | "/"%char => Some "/"%char
  | "b"%char => Some "008"%char
  | "f"%char => Some "012"%char
  | "n"%char => Some "010"%char
  | "r"%char => Some "013"%char
  | "t"%char => Some "009"%char
  | _ => None
  end.

(** Body of a string literal, after the opening quote. *)
Fixpoint parse_chars (s : list ascii) : option (list ascii * list ascii) :=
  match s with
  | [] => None
  | c :: r =>
      if Ascii.eqb c dquote then Some ([], r)
      else if Ascii.eqb c backslash then
        match r with
        | e :: r' =>
            u ← unescape e;
            '(cs, rest) ← parse_chars r';
            Some (u :: cs, rest)
        | [] => None
        end
      else if (nat_of_ascii c <? 32)%nat then None
      else '(cs, rest) ← parse_chars r; Some (c :: cs, rest)
  end.

(** A number lexeme: optional minus sign, an integer part without a
    leading zero, an optional fraction and an optional exponent. *)
Definition parse_number (s : list ascii) : option (list ascii * list ascii) :=
  let '(sign, s1) :=
    match s with "-"%char :: r => (["-"%char], r) | _ => ([], s) end in
  let '(int, s2) := take_digits s1 in
  match int with
  | [] => None
  | "0"%char :: _ :: _ => None
  | _ =>
      '(frac, s3) ←
        match s2 with
        | "."%char :: r =>
            let '(ds, r') := take_digits r in
            match ds with [] => None | _ => Some ("."%char :: ds, r') end
        | _ => Some ([], s2)
        end;
      '(exp, s4) ←
        match s3 with
        | e :: r =>
            if Ascii.eqb e "e" || Ascii.eqb e "E" then
              let '(sg, r1) :=
                match r with
                | "+"%char :: r1 => (["+"%char], r1)
                | "-"%char :: r1 => (["-"%char], r1)
                | _ => ([], r)
                end in
              let '(ds, r2) := take_digits r1 in
              match ds with [] => None | _ => Some ((e :: sg ++ ds)%list, r2) end
            else Some ([], s3)
        | [] => Some ([], s3)
        end;
      Some ((sign ++ int ++ frac ++ exp)%list, s4)
  end.

Fixpoint strip_prefix (p s : list ascii) : option (list ascii) :=
  match p, s with
  | [], _ => Some s
  | a :: p', b :: s' => if Ascii.eqb a b then strip_prefix p' s' else None
  | _ :: _, [] => None
  end.

Definition parse_literal (word : string) (v : json) (s : list ascii)
  : option (json * list ascii) :=
  r ← strip_prefix (String.list_ascii_of_string word) s; Some (v, r).

Definition parse_string (s : list ascii) : option (string * list ascii) :=
  match s with
  | c :: r =>
      if Ascii.eqb c dquote then
        '(cs, r') ← parse_chars r; Some (String.string_of_list_ascii cs, r')
      else None
  | [] => None
  end.

(** An integer lexeme (no fraction, no exponent) with more digits than
    [int] converts. *)
Definition integer_too_long (lexeme : list ascii) : bool :=
  forallb (λ c, is_digit c || Ascii.eqb c "-") lexeme
  && (MAX_STR_DIGITS <? length (filter (λ c, is_digit c = true) lexeme))%nat.

(** One JSON value and the text after it.  [fuel] bounds the nesting depth
    and the number of items of an array or object. *)
Fixpoint parse_value (fuel : nat) (s : list ascii) : scan (json * list ascii) :=
  match fuel with
  | O => Malformed
  | S fuel' =>
      match skip_ws s with
      | [] => Malformed
      | c :: r =>
          if Ascii.eqb c "n" then expect (parse_literal "null" JNull (c :: r))
          else if Ascii.eqb c "t" then expect (parse_literal "true" (JBool true) (c :: r))
          else if Ascii.eqb c "f" then expect (parse_literal "false" (JBool false) (c :: r))
          else if Ascii.eqb c dquote then
            '(str, r') ← expect (parse_string (c :: r)); Scanned (JStr str, r')
          else if Ascii.eqb c "[" then
            match skip_ws r with
            | [] => Malformed
            | c' :: r' =>
                if Ascii.eqb c' "]" then Scanned (JArr [], r')
                else
                  '(vs, rest) ←
                    (fix items (n : nat) (s : list ascii)
                       : scan (list json * list ascii) :=
                       match n with
                       | O => Malformed
                       | S n' =>
                           '(v, s1) ← parse_value fuel' s;
                           match skip_ws s1 with
                           | [] => Malformed
                           | d :: s2 =>
                               if Ascii.eqb d "," then
                                 '(vs, s3) ← items n' s2; Scanned (v :: vs, s3)
                               else if Ascii.eqb d "]" then Scanned ([v], s2)
                               else Malformed
                           end
                       end) fuel' (c' :: r');
                  Scanned (JArr vs, rest)
            end
          else if Ascii.eqb c "{" then
            match skip_ws r with
            | [] => Malformed
            | c' :: r' =>
                if Ascii.eqb c' "}" then Scanned (JObj ∅, r')
                else
                  '(d, rest) ←
                    (fix members (n : nat) (acc : gmap string json)
                         (s : list ascii)
                       : scan (gmap string json * list ascii) :=
                       match n with
                       | O => Malformed
                       | S n' =>
                           '(k, s1) ← expect (parse_string (skip_ws s));
                           match skip_ws s1 with
                           | [] => Malformed
                           | colon :: s2 =>
                               if Ascii.eqb colon ":" then
                                 '(v, s3) ← parse_value fuel' s2;
                                 match skip_ws s3 with
                                 | [] => Malformed
                                 | d :: s4 =>
                                     if Ascii.eqb d "," then
                                       members n' (<[k := v]> acc) s4
                                     else if Ascii.eqb d "}" then
                                       Scanned (<[k := v]> acc, s4)
                                     else Malformed
                                 end
                               else Malformed
                           end
                       end) fuel' ∅ (c' :: r');
                  Scanned (JObj d, rest)
            end
          else if Ascii.eqb c "N" then
            expect (parse_literal "NaN" (JNum "NaN") (c :: r))
          else if Ascii.eqb c "I" then
            expect (parse_literal "Infinity" (JNum "Infinity") (c :: r))
          else if Ascii.eqb c "-" && bool_decide (head r = Some "I"%char) then
            expect (parse_literal "-Infinity" (JNum "-Infinity") (c :: r))
          else
            '(lexeme, r') ← expect (parse_number (c :: r));
            if integer_too_long lexeme then Overflow
            else Scanned (JNum (String.string_of_list_ascii lexeme), r')
      end
  end.

(** A whole document: one value, surrounded by optional white space. *)
Definition loads (text : string) : decoded :=
  let s := String.list_ascii_of_string text in
  match parse_value (S (length s)) s with
  | Scanned (v, r) =>
      match skip_ws r with [] => Decoded v | _ :: _ => DecodeError end
  | Malformed => DecodeError
  | Overflow => DecodeRaised
  end.

(** The wire form of a schedule, as the web client writes it:
    an object with the two keys [on_time] and [off_time]. *)
Definition quoted (s : string) : string :=
  String dquote (s +:+ String dquote "").

Definition schedule_text (on off : string) : string :=
  "{" +:+ quoted "on_time" +:+ ": " +:+ quoted on +:+ ", "
      +:+ quoted "off_time" +:+ ": " +:+ quoted off +:+ "}".

(** The decimal numeral of [n] digits, all of them 1. *)
Definition ones (n : nat) : string :=
  String.string_of_list_ascii (replicate n "1"%char).

End Json.

(** ** The time-format check of the standard library *)

Module Strptime.

(** The fragment of regular expressions that [_strptime] generates, with
    the backtracking order of Python's [re]: all ways to match a prefix,
    leftmost alternative first, each given by the text left over. *)
Inductive regex : Type :=
| Chr (c : ascii)
| Range (lo hi : ascii)
| Seq (r1 r2 : regex)
| Alt (r1 r2 : regex).

Definition in_range (lo hi c : ascii) : bool :=
  (nat_of_ascii lo <=? nat_of_ascii c)%nat
  && (nat_of_ascii c <=? nat_of_ascii hi)%nat.

Fixpoint remainders (r : regex) (s : list ascii) : list (list ascii) :=
  match r with
  | Chr c =>
      match s with
      | a :: s' => if Ascii.eqb a c then [s'] else []
      | [] => []
      end
  | Range lo hi =>
      match s with
      | a :: s' => if in_range lo hi a then [s'] else []
      | [] => []
      end
  | Seq r1 r2 => s' ← remainders r1 s; remainders r2 s'
  | Alt r1 r2 => (remainders r1 s ++ remainders r2 s)%list
  end.

(** [re.match]: the first way to match, if any. *)
Definition re_match (r : regex) (s : list ascii) : option (list ascii) :=
  head (remainders r s).

(** [\d] on ASCII text.  In a [str] pattern [\d] also matches the decimal
    digits of other scripts; these are not represented, so the check below
    is the code's on values made of ASCII text. *)
Definition digit : regex := Range "0" "9".

(** [%H] is [(?P<H>2[0-3]|[0-1]\d|\d)] and [%M] is [(?P<M>[0-5]\d|\d)]. *)
Definition directive_H : regex :=
  Alt (Seq (Chr "2") (Range "0" "3")) (Alt (Seq (Range "0" "1") digit) digit).
Definition directive_M : regex :=
  Alt (Seq (Range "0" "5") digit) digit.

(** The pattern of the format ["%H:%M"]. *)
Definition format_HM : regex := Seq directive_H (Seq (Chr ":") directive_M).

Inductive exn : Type := ValueError | TypeError.

(** [datetime.strptime(text, "%H:%M")] on a [str]: [ValueError] when the
    pattern does not match at the start of [text] or when unconverted data
    remains after the match.  The [datetime] returned on success is
    dropped by every caller and is not represented. *)
Definition strptime_str (text : string) : exn + unit :=
  match re_match format_HM (String.list_ascii_of_string text) with
  | None => inl ValueError
  | Some [] => inr ()
  | Some (_ :: _) => inl ValueError
  end.

(** [datetime.strptime(v, "%H:%M")] on any decoded value: a first argument
    that is not a [str] raises [TypeError].  On success the checked string
    is handed back. *)
Definition strptime (v : Json.json) : exn + string :=
  match v with
  | Json.JStr text =>
      match strptime_str text with
      | inr _ => inr text
      | inl e => inl e
      end
  | _ => inl TypeError
  end.

(** Text made of ASCII characters only, on which [\d] is [0-9]. *)
Definition ascii_text (text : string) : bool :=
  forallb (λ c, (nat_of_ascii c <? 128)%nat) (String.list_ascii_of_string text).

(** A decoded value that is not a string, or a string of ASCII text. *)
Definition plain_value (v : Json.json) : bool :=
  match v with
  | Json.JStr text => ascii_text text
  | _ => true
  end.

(** The format the schedule is documented to use, ["HH:MM"]: two digits,
    a colon, two digits, hour at most 23 and minute at most 59.  This is
    also what [strftime("%H:%M")] prints. *)
Definition strict_HHMM (text : string) : bool :=
  match String.list_ascii_of_string text with
  | [h1; h2; c; m1; m2] =>
      Json.is_digit h1 && Json.is_digit h2 && Ascii.eqb c ":"
      && Json.is_digit m1 && Json.is_digit m2
      && ((nat_of_ascii h1 - 48) * 10 + (nat_of_ascii h2 - 48) <=? 23)%nat
      && ((nat_of_ascii m1 - 48) * 10 + (nat_of_ascii m2 - 48) <=? 59)%nat
  | _ => false
  end.

End Strptime.

(** ** Programs over global state, with a trace of outside calls *)

Module Prog.

(** A computation reads and updates the globals [S] and appends the calls
    it makes on the outside world, of type [E], to a trace. *)
Definition Prog (S E A : Type) : Type := S → A * S * list E.

#[global] Instance prog_ret {S E} : MRet (Prog S E) := λ A a st, (a, st, []).
#[global] Instance prog_bind {S E} : MBind (Prog S E) := λ A B k m st,
  let '(a, st1, ev1) := m st in
  let '(b, st2, ev2) := k a st1 in
  (b, st2, (ev1 ++ ev2)%list).

Definition get {S E} : Prog S E S := λ st, (st, st, []).
Definition modify {S E} (f : S → S) : Prog S E unit := λ st, ((), f st, []).
Definition emit {S E} (e : E) : Prog S E unit := λ st, ((), st, [e]).
Definition skip {S E} : Prog S E unit := mret ().

Definition result {S E A} (m : Prog S E A) (st : S) : A := (m st).1.1.
Definition exec {S E A} (m : Prog S E A) (st : S) : S := (m st).1.2.
Definition trace {S E A} (m : Prog S E A) (st : S) : list E := (m st).2.

End Prog.

(** ** The controller: [src/subscriber/mqtt_subscriber.py] *)

Module Subscriber.
Import Json Strptime Prog.

(** *** Configuration *)

Definition MQTT_TOPIC : string := "relay/schedule".
Definition SERIAL_PORT : string := "/dev/ttyACM0".     (* default of the environment variable *)
Definition SERIAL_BAUDRATE : Z := 9600.
Definition SERIAL_TIMEOUT : Z := 1.
Definition WRITE_TIMEOUT : Z := 1.
Definition CHECK_INTERVAL_SECONDS : Z := 1.
Definition SERIAL_RECONNECT_DELAY_SECONDS : Q := 10.

(** *** Global state *)

(** [current_schedule], a dict with the two fixed keys; [None] is unset. *)
Record Schedule : Type := mkSchedule {
  on_time : option string;
  off_time : option string;
}.

(** What the controller can observe of a [serial.Serial] object. *)
Record Serial : Type := mkSerial {
  port : string;
  is_open : bool;
}.

Record State : Type := mkState {
  current_schedule : Schedule;
  arduino : option Serial;
  last_command_sent_minute : option string;
  last_known_state : option string;          (* '0' or '1' or None *)
  last_serial_connect_attempt : Q;           (* seconds, [time.time()] *)
}.

Definition initial_state : State :=
  {| current_schedule := {| on_time := None; off_time := None |};
     arduino := None;
     last_command_sent_minute := None;
     last_known_state := None;
     last_serial_connect_attempt := 0 |}.

Definition set_current_schedule (v : Schedule) (st : State) : State :=
  mkState v (arduino st) (last_command_sent_minute st)
          (last_known_state st) (last_serial_connect_attempt st).
Definition set_arduino (v : option Serial) (st : State) : State :=
  mkState (current_schedule st) v (last_command_sent_minute st)
          (last_known_state st) (last_serial_connect_attempt st).
Definition set_last_command_sent_minute (v : option string) (st : State) : State :=
  mkState (current_schedule st) (arduino st) v
          (last_known_state st) (last_serial_connect_attempt st).
Definition set_last_known_state (v : option string) (st : State) : State :=
  mkState (current_schedule st) (arduino st) (last_command_sent_minute st)
          v (last_serial_connect_attempt st).
Definition set_last_serial_connect_attempt (v : Q) (st : State) : State :=
  mkState (current_schedule st) (arduino st) (last_command_sent_minute st)
          (last_known_state st) v.

(** [arduino and arduino.is_open] *)
Definition serial_ready (st : State) : bool :=
  match arduino st with
  | Some ser => is_open ser
  | None => false
  end.

(** *** The outside world *)

(** Outcome of [serial.Serial(...)] in [setup_serial]. *)
Inductive OpenResult : Type :=
| Opened (ser : Serial)
| OpenSerialException
| OpenException.

(** Outcome of [arduino.write] followed by [arduino.flush]. *)
Inductive WriteResult : Type :=
| WriteOk
| WriteTimeout              (* serial.SerialTimeoutException *)
| WriteSerialException      (* serial.SerialException *)
| WriteException.

(** What one iteration of the main loop reads from its surroundings. *)
Record TickEnv : Type := mkTickEnv {
  now : Q;                        (* time.time() *)
  now_str : string;               (* datetime.now().strftime("%H:%M") *)
  open_result : OpenResult;
  write_result : WriteResult;
}.

(** Calls on the serial device, in program order. *)
Inductive Event : Type :=
| SerialClose (p : string)
| SerialOpen (p : string) (baudrate timeout write_timeout : Z)
| SerialWrite (command : string) (r : WriteResult).

(** *** Programs of the controller *)

Abbreviation Prog := (Prog.Prog State Event).

(** [x > y] on time stamps. *)
Definition Qgt_bool (x y : Q) : bool := negb (Qle_bool x y).

(** *** MQTT callback *)

Inductive MessageOutcome : Type :=
| ScheduleUpdated
| InvalidTimeFormat        (* the inner [except ValueError] *)
| InvalidScheduleFormat    (* the [else] of the structural test *)
| JsonDecodeFailed         (* [except json.JSONDecodeError] *)
| ProcessingError.         (* [except Exception] *)

Definition set_on_time (v : option string) (st : State) : State :=
  set_current_schedule (mkSchedule v (off_time (current_schedule st))) st.
Definition set_off_time (v : option string) (st : State) : State :=
  set_current_schedule (mkSchedule (on_time (current_schedule st)) v) st.

Section Callback.
Context {decoder : JsonDecoder}.

(** [on_message], on the text of the payload.  The function declares only
    [current_schedule] and [last_command_sent_minute] as [global]; its
    assignment to [last_known_state] therefore binds a local name of the
    callback and the global of that name keeps its value. *)
Definition on_message (payload : string) : Prog MessageOutcome :=
  match json_loads payload with
  | DecodeError => mret JsonDecodeFailed
  | DecodeRaised => mret ProcessingError
  | Decoded schedule_data =>
      if is_dict schedule_data && has_key "on_time" schedule_data
         && has_key "off_time" schedule_data
      then
        match get_item "on_time" schedule_data with
        | None => mret ProcessingError
        | Some on_value =>
            match strptime on_value with
            | inl ValueError => mret InvalidTimeFormat
            | inl TypeError => mret ProcessingError
            | inr on =>
                match get_item "off_time" schedule_data with
                | None => mret ProcessingError
                | Some off_value =>
                    match strptime off_value with
                    | inl ValueError => mret InvalidTimeFormat
                    | inl TypeError => mret ProcessingError
                    | inr off =>
                        modify (set_on_time (Some on));;
                        modify (set_off_time (Some off));;
                        modify (set_last_command_sent_minute None);;
                        let local_last_known_state : option string := None in
                        mret ScheduleUpdated
                    end
                end
            end
        end
      else mret InvalidScheduleFormat
  end.
End Callback.

(** *** Serial communication *)

(** Closing the port held in [arduino], when it is open; an error raised
    by [close] is logged and otherwise ignored. *)
Definition close_if_open : Prog unit :=
  st ← get;
  match arduino st with
  | Some ser => if is_open ser then emit (SerialClose (port ser)) else skip
  | None => skip
  end.

Definition close_serial_safely : Prog unit :=
  close_if_open;;
  modify (set_arduino None).

Definition setup_serial (env : TickEnv) (p : string)
    (baudrate timeout write_timeout : Z) : Prog (option Serial) :=
  close_if_open;;
  modify (set_arduino None);;
  modify (set_last_known_state None);;
  emit (SerialOpen p baudrate timeout write_timeout);;
  match open_result env with
  | Opened ser => if is_open ser then mret (Some ser) else mret None
  | OpenSerialException => mret None
  | OpenException => mret None
  end.

Definition send_to_arduino (env : TickEnv) (command : string) : Prog unit :=
  st ← get;
  if negb (serial_ready st) then skip
  else
    emit (SerialWrite command (write_result env));;
    match write_result env with
    | WriteOk => modify (set_last_known_state (Some command))
    | WriteTimeout => close_serial_safely;; modify (set_arduino None)
    | WriteSerialException => close_serial_safely;; modify (set_arduino None)
    | WriteException => close_serial_safely;; modify (set_arduino None)
    end.

(** *** Main loop *)

(** The first lines of [main], before the loop. *)
Definition startup (env : TickEnv) : Prog unit :=
  ser ← setup_serial env SERIAL_PORT SERIAL_BAUDRATE SERIAL_TIMEOUT WRITE_TIMEOUT;
  modify (set_arduino ser);;
  modify (set_last_serial_connect_attempt (now env)).

(** Serial connection check and reconnect. *)
Definition reconnect_check (env : TickEnv) : Prog unit :=
  st ← get;
  if negb (serial_ready st) then
    if Qgt_bool (now env - last_serial_connect_attempt st)
                SERIAL_RECONNECT_DELAY_SECONDS
    then
      modify (set_last_serial_connect_attempt (now env));;
      ser ← setup_serial env SERIAL_PORT SERIAL_BAUDRATE SERIAL_TIMEOUT
                         WRITE_TIMEOUT;
      modify (set_arduino ser);;
      match ser with
      | Some _ => modify (set_last_command_sent_minute None)
      | None => skip
      end
    else skip
  else skip.

(** Body of [if current_schedule["on_time"] == now_str]. *)
Definition on_branch (env : TickEnv) : Prog unit :=
  st ← get;
  if negb (bool_decide (last_command_sent_minute st = Some (now_str env))) then
    if negb (bool_decide (last_known_state st = Some "1")) then
      send_to_arduino env "1";;
      st' ← get;
      match arduino st' with
      | Some _ => modify (set_last_command_sent_minute (Some (now_str env)))
      | None => skip
      end
    else modify (set_last_command_sent_minute (Some (now_str env)))
  else skip.

(** Body of [elif current_schedule["off_time"] == now_str]. *)
Definition off_branch (env : TickEnv) : Prog unit :=
  st ← get;
  if negb (bool_decide (last_command_sent_minute st = Some (now_str env))) then
    if negb (bool_decide (last_known_state st = Some "0")) then
      send_to_arduino env "0";;
      st' ← get;
      match arduino st' with
      | Some _ => modify (set_last_command_sent_minute (Some (now_str env)))
      | None => skip
      end
    else modify (set_last_command_sent_minute (Some (now_str env)))
  else skip.

(** Schedule logic, run only while the serial port is connected. *)
Definition schedule_logic (env : TickEnv) : Prog unit :=
  st ← get;
  if serial_ready st then
    if bool_decide (on_time (current_schedule st) = Some (now_str env)) then
      on_branch env
    else if bool_decide (off_time (current_schedule st) = Some (now_str env)) then
      off_branch env
    else skip
  else skip.

(** One iteration of [while True]. *)
Definition tick (env : TickEnv) : Prog unit :=
  reconnect_check env;;
  schedule_logic env.

(** Consecutive iterations. *)
Fixpoint run (envs : list TickEnv) : Prog unit :=
  match envs with
  | [] => skip
  | env :: rest => tick env;; run rest
  end.

(** [main] from the serial set-up on: the set-up, then the loop. *)
Definition main (env0 : TickEnv) (envs : list TickEnv) : Prog unit :=
  startup env0;;
  run envs.

(** *** Observations on traces *)

(** The commands that reached the device: writes that completed. *)
Definition sent_command (e : Event) : option string :=
  match e with
  | SerialWrite command WriteOk => Some command
  | _ => None
  end.
Definition sent_commands (evs : list Event) : list string :=
  omap sent_command evs.

(** The commands the loop tried to write, completed or not. *)
Definition write_attempt (e : Event) : option string :=
  match e with
  | SerialWrite command _ => Some command
  | _ => None
  end.
Definition write_attempts (evs : list Event) : list string :=
  omap write_attempt evs.

(** A write that raised. *)
Definition is_failed_write (e : Event) : bool :=
  match e with
  | SerialWrite _ WriteOk => false
  | SerialWrite _ _ => true
  | _ => false
  end.

(** A connection attempt, [serial.Serial(...)]. *)
Definition is_connect_attempt (e : Event) : bool :=
  match e with SerialOpen _ _ _ _ => true | _ => false end.

(** *** States of a running controller *)

Section Reachable.
Context {decoder : JsonDecoder}.

(** [main] opens the port once and then loops; the MQTT thread delivers
    messages between iterations.  A callback that runs in the middle of an
    iteration, or an iteration that runs in the middle of a callback, is not
    among these steps. *)
Inductive reachable : State → Prop :=
| reach_startup env :
    reachable (exec (startup env) initial_state)
| reach_tick env st :
    reachable st → reachable (exec (tick env) st)
| reach_message payload st :
    reachable st → reachable (exec (on_message payload) st).
End Reachable.

(** How the two debounce globals relate in a running controller: with the
    port open and the device state unknown no minute is recorded, and while
    no schedule has arrived both are unset. *)
Definition debounce_consistent (st : State) : Prop :=
  (serial_ready st = true → last_known_state st = None →
   last_command_sent_minute st = None)
  ∧ (on_time (current_schedule st) = None →
     off_time (current_schedule st) = None →
     last_command_sent_minute st = None ∧ last_known_state st = None).

(** One command a minute, counting every write the loop makes: over
    iterations that all read the minute [m], at most one write. *)
Definition one_write_per_minute (m : string) (envs : list TickEnv) (st : State)
  : Prop :=
  Forall (λ env, now_str env = m) envs →
  (length (write_attempts (trace (run envs) st)) ≤ 1)%nat.

(** Reconnect gating counted from the failed write: after a write failed in
    the iteration [env1], an iteration [env2] that starts less than the
    reconnect delay later opens no connection. *)
Definition waits_since_failure (st : State) (env1 env2 : TickEnv) : Prop :=
  existsb is_failed_write (trace (tick env1) st) = true →
  (now env2 - now env1 < SERIAL_RECONNECT_DELAY_SECONDS)%Q →
  existsb is_connect_attempt (trace (tick env2) (exec (tick env1) st)) = false.


(** *** Sample states and surroundings *)

Definition open_port : Serial := {| port := SERIAL_PORT; is_open := true |}.

Definition day_schedule : Schedule :=
  {| on_time := Some "07:00"; off_time := Some "19:00" |}.

(** An iteration at clock time [t] whose wall clock reads [minute]. *)
Definition at_time (t : Q) (minute : string) (o : OpenResult) (w : WriteResult)
  : TickEnv :=
  {| now := t; now_str := minute; open_result := o; write_result := w |}.

(** Port open since time [since], schedule armed, nothing sent yet. *)
Definition armed_state (since : Q) : State :=
  {| current_schedule := day_schedule;
     arduino := Some open_port;
     last_command_sent_minute := None;
     last_known_state := None;
     last_serial_connect_attempt := since |}.

(** The state at the end of [main]'s set-up when the port opens at once. *)
Definition started_state : State :=
  exec (startup (at_time 0 "06:58" (Opened open_port) WriteOk)) initial_state.

(** The relay was switched on at 07:00 and the port is still open. *)
Definition switched_on_state : State :=
  {| current_schedule := day_schedule;
     arduino := Some open_port;
     last_command_sent_minute := Some "07:00";
     last_known_state := Some "1";
     last_serial_connect_attempt := 0 |}.

(** *** Further observations on runs *)

(** The clock readings of the iterations that tried to open the port. *)
Fixpoint attempt_times (envs : list TickEnv) (st : State) : list Q :=
  match envs with
  | [] => []
  | env :: rest =>
      let later := attempt_times rest (exec (tick env) st) in
      if existsb is_connect_attempt (trace (tick env) st)
      then now env :: later else later
  end.

(** Each time is more than the reconnect delay after the one before it,
    starting from [previous]. *)
Fixpoint spaced (previous : Q) (times : list Q) : Prop :=
  match times with
  | [] => True
  | t :: rest =>
      (SERIAL_RECONNECT_DELAY_SECONDS < t - previous)%Q ∧ spaced t rest
  end.

(** What the device calls of a trace tell about the relay: nothing after a
    call to open the port, the command after a write that completed. *)
Definition known_after_event (known : option string) (e : Event) : option string :=
  match e with
  | SerialOpen _ _ _ _ => None
  | SerialWrite command WriteOk => Some command
  | _ => known
  end.
Definition known_after (evs : list Event) (known : option string) : option string :=
  fold_left known_after_event evs known.

(** Ranges of the serial globals: the port held is an open one, and the
    known state is a command or unset. *)
Definition globals_in_range (st : State) : Prop :=
  (arduino st = None ∨ serial_ready st = true)
  ∧ (last_known_state st = None ∨ last_known_state st = Some "0"
     ∨ last_known_state st = Some "1").

End Subscriber.

(** ** The gateway: [src/backend/websocket_server.py] *)

Module Backend.
Import Json Prog.

Definition MQTT_TOPIC : string := "relay/schedule".

(** *** Global state *)

(** The handle of the [mqtt.Client] created by [start_server]. *)
Record Client : Type := mkClient { client_id : string }.

Record State : Type := mkState {
  mqtt_client : option Client;
  mqtt_connected : bool;
}.

Definition initial_state : State :=
  {| mqtt_client := None; mqtt_connected := false |}.

Definition set_mqtt_connected (v : bool) (st : State) : State :=
  mkState (mqtt_client st) v.

(** *** The outside world *)

(** The dict given to [json.dumps] for a reply. *)
Record Response : Type := mkResponse {
  status : string;
  message : string;
}.

(** Outcome of [client.publish] followed by [wait_for_publish]. *)
Inductive PublishResult : Type :=
| Published                 (* is_published() is true *)
| NotPublished              (* is_published() is false *)
| PublishValueError
| PublishException.

(** Outcome of [websocket.send]. *)
Inductive SendResult : Type :=
| Sent
| ConnectionClosed.         (* websockets.exceptions.ConnectionClosed *)

Record MessageEnv : Type := mkMessageEnv {
  publish_result : PublishResult;
  send_result : SendResult;
}.

Inductive Event : Type :=
| MqttPublish (topic payload : string)    (* client.publish(topic, payload) *)
| WsSend (r : Response).                  (* websocket.send(json.dumps(r)) *)

Abbreviation Prog := (Prog.Prog State Event).

(** *** MQTT callbacks *)

Definition on_connect (rc : Z) : Prog unit :=
  if bool_decide (rc = 0%Z) then modify (set_mqtt_connected true)
  else modify (set_mqtt_connected false).

Definition on_disconnect (rc : Z) : Prog unit :=
  modify (set_mqtt_connected false).

(** *** Publishing *)

Definition publish_to_mqtt (env : MessageEnv) (client : option Client)
    (message_payload : string) : Prog bool :=
  st ← get;
  if negb (bool_decide (is_Some client)) || negb (mqtt_connected st) then
    mret false
  else
    emit (MqttPublish MQTT_TOPIC message_payload);;
    match publish_result env with
    | Published => mret true
    | NotPublished => mret false
    | PublishValueError => modify (set_mqtt_connected false);; mret false
    | PublishException => mret false
    end.

(** *** WebSocket handler *)

Definition response_published : Response :=
  {| status := "success";
     message := "Schedule received and published to MQTT." |}.
Definition response_publish_failed : Response :=
  {| status := "error";
     message := "Schedule received but failed to publish to MQTT." |}.
Definition response_invalid_format : Response :=
  {| status := "error";
     message := "Invalid format. Expected JSON with 'on_time' and 'off_time' keys." |}.
Definition response_invalid_json : Response :=
  {| status := "error"; message := "Invalid JSON format." |}.
Definition response_internal_error : Response :=
  {| status := "error"; message := "Internal server error." |}.

Definition ws_send (env : MessageEnv) (r : Response) : Prog SendResult :=
  emit (WsSend r);;
  mret (send_result env).

(** Whether the [async for] loop goes on to the next message. *)
Inductive LoopStatus : Type :=
| NextMessage
| HandlerEnded.

Section Handler.
Context {decoder : JsonDecoder}.

(** Body of [async for message in websocket] in [handle_connection]. *)
Definition handle_message (env : MessageEnv) (message : string)
  : Prog LoopStatus :=
  match json_loads message with
  | Decoded schedule_data =>
      sent ←
        (if is_dict schedule_data && has_key "on_time" schedule_data
            && has_key "off_time" schedule_data
         then
           st ← get;
           publish_successful ← publish_to_mqtt env (mqtt_client st) message;
           ws_send env (if publish_successful : bool
                        then response_published
                        else response_publish_failed)
         else ws_send env response_invalid_format);
      match sent with
      | Sent => mret NextMessage
      | ConnectionClosed =>
          (* except Exception: one more reply is tried, a closed
             connection is then passed over *)
          ws_send env response_internal_error;;
          mret NextMessage
      end
  | DecodeError =>
      (* except json.JSONDecodeError: an error raised by this send
         leaves the loop *)
      sent ← ws_send env response_invalid_json;
      match sent with
      | Sent => mret NextMessage
      | ConnectionClosed => mret HandlerEnded
      end
  | DecodeRaised =>
      (* except Exception: the reply is tried, a closed connection is
         passed over *)
      ws_send env response_internal_error;;
      mret NextMessage
  end.

(** [handle_connection]: the messages of one connection, in order of
    receipt, each with the outcomes of its outside calls. *)
Fixpoint handle_connection (inbox : list (MessageEnv * string)) : Prog unit :=
  match inbox with
  | [] => skip
  | (env, message) :: rest =>
      status ← handle_message env message;
      match status with
      | NextMessage => handle_connection rest
      | HandlerEnded => skip
      end
  end.
End Handler.

(** What happens at the gateway while a connection is served: a message
    arrives, or the MQTT thread runs one of its callbacks. *)
Inductive GatewayStep : Type :=
| Receive (env : MessageEnv) (message : string)
| Connect (rc : Z)
| Disconnect (rc : Z).

Definition is_connect_ok (step : GatewayStep) : bool :=
  match step with Connect rc => bool_decide (rc = 0%Z) | _ => false end.

(** [handle_connection] with the callbacks of the MQTT thread.  A message's
    handling reads [mqtt_connected] once (line 46) and writes it at most
    once (line 61), so a callback that runs in its middle has the effect of
    one that runs just before or just after it: the callbacks are placed
    between the messages. *)
Fixpoint serve {decoder : JsonDecoder} (steps : list GatewayStep) : Prog unit :=
  match steps with
  | [] => skip
  | Receive env message :: rest =>
      status ← handle_message env message;
      match status with
      | NextMessage => serve rest
      | HandlerEnded => skip
      end
  | Connect rc :: rest => on_connect rc;; serve rest
  | Disconnect rc :: rest => on_disconnect rc;; serve rest
  end.

(** *** Observations on traces *)

Definition published_payload (e : Event) : option string :=
  match e with MqttPublish _ payload => Some payload | _ => None end.
Definition published_payloads (evs : list Event) : list string :=
  omap published_payload evs.

Definition reply (e : Event) : option Response :=
  match e with WsSend r => Some r | _ => None end.
Definition replies (evs : list Event) : list Response := omap reply evs.

(** The structural test on a decoded message. *)
Definition well_formed (v : json) : bool :=
  is_dict v && has_key "on_time" v && has_key "off_time" v.

(** The replies that name the format of the message. *)
Definition names_format (r : Response) : Prop :=
  r = response_invalid_format ∨ r = response_invalid_json.

(** A format reply for every message that is not an object with both keys:
    nothing is published and the first reply names the format. *)
Definition answers_with_format_error {decoder : JsonDecoder}
    (env : MessageEnv) (message : string) (st : State) : Prop :=
  (∀ v, json_loads message = Decoded v → well_formed v = false) →
  published_payloads (trace (handle_message env message) st) = []
  ∧ ∃ r, head (replies (trace (handle_message env message) st)) = Some r
         ∧ names_format r.

End Backend.

(** ** Properties of the controller *)

Module SubscriberProps.
Import Json Strptime Prog Subscriber.

(** Unfolding of the programs down to state transformers. *)
Ltac unfold_prog :=
  unfold exec, trace, result, tick, startup, reconnect_check, schedule_logic,
    on_branch, off_branch, send_to_arduino, setup_serial,
    close_serial_safely, close_if_open, skip, get, modify, emit,
    mbind, mret, prog_bind, prog_ret in *.

(** Case analysis on the tests the unfolded program performs. *)
Ltac split_step :=
  match goal with
  | |- context [@bool_decide ?P ?dec] =>
      destruct (@bool_decide_reflect P dec); try discriminate; simplify_eq
  | |- context [Qgt_bool ?a ?b] => destruct (Qgt_bool a b) eqn:?
  | |- context [match ?x with _ => _ end] => is_var x; destruct x
  | |- context [negb ?x] => is_var x; destruct x
  | |- context [is_open ?x] => is_var x; destruct x
  end.

Ltac split_tests := repeat (cbn in *; split_step); cbn in *.

Ltac crush_phase st env :=
  destruct st as [[? ?] [[? ?]|] ? ? ?], env as [? ? ? ?];
  unfold_prog; split_tests.

#[local] Arguments Qgt_bool : simpl never.
#[local] Arguments Qminus : simpl never.

(** *** The monad *)

Section Bind.
Context {S E A B : Type} (m : Prog.Prog S E A) (k : A → Prog.Prog S E B).

Lemma result_bind st :
  result (m ≫= k) st = result (k (result m st)) (exec m st).
Proof.
  unfold result, exec, mbind, prog_bind.
  destruct (m st) as [[a st1] ev1]; cbn. by destruct (k a st1) as [[b st2] ev2].
Qed.

Lemma exec_bind st :
  exec (m ≫= k) st = exec (k (result m st)) (exec m st).
Proof.
  unfold result, exec, mbind, prog_bind.
  destruct (m st) as [[a st1] ev1]; cbn. by destruct (k a st1) as [[b st2] ev2].
Qed.

Lemma trace_bind st :
  trace (m ≫= k) st = (trace m st ++ trace (k (result m st)) (exec m st))%list.
Proof.
  unfold result, exec, trace, mbind, prog_bind.
  destruct (m st) as [[a st1] ev1]; cbn. by destruct (k a st1) as [[b st2] ev2].
Qed.
End Bind.

(** *** The two halves of an iteration *)

Lemma exec_tick env st :
  exec (tick env) st = exec (schedule_logic env) (exec (reconnect_check env) st).
Proof. unfold tick. by rewrite exec_bind. Qed.

Lemma trace_tick env st :
  trace (tick env) st
  = (trace (reconnect_check env) st
     ++ trace (schedule_logic env) (exec (reconnect_check env) st))%list.
Proof. unfold tick. by rewrite trace_bind. Qed.

Lemma tick_eta env st : tick env st = ((), exec (tick env) st, trace (tick env) st).
Proof. unfold exec, trace. by destruct (tick env st) as [[[] ?] ?]. Qed.

Lemma reconnect_check_ready env st :
  serial_ready st = true → reconnect_check env st = ((), st, []).
Proof. intros H. crush_phase st env; simplify_eq; done. Qed.

Lemma reconnect_check_waiting env st :
  Qgt_bool (now env - last_serial_connect_attempt st)
           SERIAL_RECONNECT_DELAY_SECONDS = false →
  reconnect_check env st = ((), st, []).
Proof. intros H. crush_phase st env; simplify_eq; done. Qed.

Lemma reconnect_check_writes env st :
  write_attempts (trace (reconnect_check env) st) = [].
Proof. crush_phase st env; done. Qed.

Lemma reconnect_check_schedule env st :
  current_schedule (exec (reconnect_check env) st) = current_schedule st.
Proof. crush_phase st env; done. Qed.

Lemma schedule_logic_schedule env st :
  current_schedule (exec (schedule_logic env) st) = current_schedule st.
Proof. crush_phase st env; done. Qed.

Lemma schedule_logic_attempt env st :
  last_serial_connect_attempt (exec (schedule_logic env) st)
  = last_serial_connect_attempt st.
Proof. crush_phase st env; done. Qed.

Lemma schedule_logic_no_connect env st :
  existsb is_connect_attempt (trace (schedule_logic env) st) = false.
Proof. crush_phase st env; done. Qed.

Lemma schedule_logic_down env st :
  serial_ready st = false → schedule_logic env st = ((), st, []).
Proof. intros H. crush_phase st env; simplify_eq; done. Qed.

Lemma schedule_logic_settled env st :
  last_command_sent_minute st = Some (now_str env) →
  schedule_logic env st = ((), st, []).
Proof. intros H. crush_phase st env; simplify_eq; done. Qed.

Lemma schedule_logic_sends env st :
  sent_commands (trace (schedule_logic env) st) = []
  ∨ (∃ c, sent_commands (trace (schedule_logic env) st) = [c])
    ∧ serial_ready (exec (schedule_logic env) st) = true
    ∧ last_command_sent_minute (exec (schedule_logic env) st)
      = Some (now_str env).
Proof. crush_phase st env; simplify_eq; eauto. Qed.

Lemma schedule_logic_writes_complete env st :
  write_result env = WriteOk →
  write_attempts (trace (schedule_logic env) st)
  = sent_commands (trace (schedule_logic env) st).
Proof. intros Hwrite. crush_phase st env; simplify_eq; done. Qed.

Lemma sent_commands_attempts evs :
  write_attempts evs = [] → sent_commands evs = [].
Proof.
  induction evs as [|[| |c []] evs IH]; cbn; intros H; try done; auto.
Qed.

Lemma sent_commands_app evs1 evs2 :
  sent_commands (evs1 ++ evs2) = (sent_commands evs1 ++ sent_commands evs2)%list.
Proof. apply omap_app. Qed.

Lemma write_attempts_app evs1 evs2 :
  write_attempts (evs1 ++ evs2) = (write_attempts evs1 ++ write_attempts evs2)%list.
Proof. apply omap_app. Qed.

Lemma reconnect_check_no_failure env st :
  existsb is_failed_write (trace (reconnect_check env) st) = false.
Proof. crush_phase st env; done. Qed.

Lemma reconnect_check_attempt_time env st :
  last_serial_connect_attempt (exec (reconnect_check env) st)
  = if existsb is_connect_attempt (trace (reconnect_check env) st)
    then now env else last_serial_connect_attempt st.
Proof. crush_phase st env; done. Qed.


Lemma reconnect_check_unknown env st :
  last_command_sent_minute st = None →
  last_known_state st = None →
  last_command_sent_minute (exec (reconnect_check env) st) = None
  ∧ last_known_state (exec (reconnect_check env) st) = None.
Proof. intros Hmin Hknown. crush_phase st env; simplify_eq; done. Qed.

Lemma schedule_logic_unset env st :
  on_time (current_schedule st) = None →
  off_time (current_schedule st) = None →
  schedule_logic env st = ((), st, []).
Proof. intros Hon Hoff. crush_phase st env; simplify_eq; done. Qed.

Lemma schedule_logic_failure env st :
  existsb is_failed_write (trace (schedule_logic env) st) = true →
  serial_ready st = true
  ∧ arduino (exec (schedule_logic env) st) = None
  ∧ last_command_sent_minute (exec (schedule_logic env) st)
    = last_command_sent_minute st
  ∧ last_command_sent_minute st ≠ Some (now_str env)
  ∧ write_attempts (trace (schedule_logic env) st) ≠ [].
Proof. intros Hfail. crush_phase st env; simplify_eq; done. Qed.


Lemma schedule_logic_switch_on env st :
  serial_ready st = true →
  on_time (current_schedule st) = Some (now_str env) →
  last_command_sent_minute st ≠ Some (now_str env) →
  last_known_state st ≠ Some "1" →
  write_result env = WriteOk →
  schedule_logic env st
  = ((), set_last_command_sent_minute (Some (now_str env))
           (set_last_known_state (Some "1") st),
     [SerialWrite "1" WriteOk]).
Proof.
  intros Hready Hon Hmin Hknown Hwrite.
  crush_phase st env; simplify_eq; done.
Qed.

Lemma schedule_logic_already_on env st :
  serial_ready st = true →
  on_time (current_schedule st) = Some (now_str env) →
  last_command_sent_minute st ≠ Some (now_str env) →
  last_known_state st = Some "1" →
  schedule_logic env st
  = ((), set_last_command_sent_minute (Some (now_str env)) st, []).
Proof.
  intros Hready Hon Hmin Hknown.
  crush_phase st env; simplify_eq; done.
Qed.

(** *** One iteration *)

Lemma tick_schedule env st :
  current_schedule (exec (tick env) st) = current_schedule st.
Proof.
  by rewrite exec_tick, schedule_logic_schedule, reconnect_check_schedule.
Qed.

Lemma tick_settled env st :
  serial_ready st = true →
  last_command_sent_minute st = Some (now_str env) →
  tick env st = ((), st, []).
Proof.
  intros Hready Hmin. rewrite tick_eta, exec_tick, trace_tick.
  unfold exec, trace. rewrite (reconnect_check_ready _ _ Hready); cbn.
  by rewrite (schedule_logic_settled _ _ Hmin).
Qed.

Lemma tick_sends env st :
  sent_commands (trace (tick env) st) = []
  ∨ (∃ c, sent_commands (trace (tick env) st) = [c])
    ∧ serial_ready (exec (tick env) st) = true
    ∧ last_command_sent_minute (exec (tick env) st) = Some (now_str env).
Proof.
  rewrite exec_tick, trace_tick, sent_commands_app.
  rewrite (sent_commands_attempts _ (reconnect_check_writes env st)).
  apply schedule_logic_sends.
Qed.



Lemma schedule_logic_off_second env st :
  serial_ready st = true →
  on_time (current_schedule st) ≠ Some (now_str env) →
  off_time (current_schedule st) = Some (now_str env) →
  schedule_logic env st = off_branch env st.
Proof.
  intros Hready Hon Hoff. unfold schedule_logic, mbind, prog_bind, get.
  rewrite Hready, (bool_decide_eq_false_2 _ Hon), (bool_decide_eq_true_2 _ Hoff).
  by destruct (off_branch env st) as [[[] ?] ?].
Qed.


Lemma tick_writes_complete env st :
  write_result env = WriteOk →
  write_attempts (trace (tick env) st) = sent_commands (trace (tick env) st).
Proof.
  intros Hwrite.
  rewrite trace_tick, write_attempts_app, sent_commands_app.
  rewrite (sent_commands_attempts _ (reconnect_check_writes env st)).
  by rewrite reconnect_check_writes, schedule_logic_writes_complete.
Qed.

(** *** Consecutive iterations *)

Lemma exec_run_cons env rest st :
  exec (run (env :: rest)) st = exec (run rest) (exec (tick env) st).
Proof. cbn [run]. by rewrite exec_bind. Qed.

Lemma trace_run_cons env rest st :
  trace (run (env :: rest)) st
  = (trace (tick env) st ++ trace (run rest) (exec (tick env) st))%list.
Proof. cbn [run]. by rewrite trace_bind. Qed.

Lemma run_schedule envs st :
  current_schedule (exec (run envs) st) = current_schedule st.
Proof.
  revert st; induction envs as [|env rest IH]; intros st; [done|].
  by rewrite exec_run_cons, IH, tick_schedule.
Qed.

Lemma run_settled m envs st :
  Forall (λ env, now_str env = m) envs →
  serial_ready st = true →
  last_command_sent_minute st = Some m →
  run envs st = ((), st, []).
Proof.
  intros Hm Hready Hmin. induction Hm as [|env rest Henv _ IH]; [done|].
  cbn [run]. unfold mbind, prog_bind.
  rewrite tick_settled by (by rewrite ?Henv). by rewrite IH.
Qed.

Lemma run_sends_once m envs st :
  Forall (λ env, now_str env = m) envs →
  (length (sent_commands (trace (run envs) st)) ≤ 1)%nat.
Proof.
  intros Hm; revert st. induction Hm as [|env rest Henv Hrest IH]; intros st.
  { cbn. lia. }
  rewrite trace_run_cons, sent_commands_app, length_app.
  destruct (tick_sends env st) as [Hnone|([c Hone] & Hready & Hmin)].
  - rewrite Hnone; cbn. apply IH.
  - rewrite Hone; cbn. rewrite Henv in Hmin. unfold trace at 1.
    rewrite (run_settled m) by done. cbn. lia.
Qed.

Lemma run_writes_complete envs st :
  Forall (λ env, write_result env = WriteOk) envs →
  write_attempts (trace (run envs) st) = sent_commands (trace (run envs) st).
Proof.
  intros Hok; revert st. induction Hok as [|env rest Henv _ IH]; intros st.
  { done. }
  rewrite trace_run_cons, write_attempts_app, sent_commands_app.
  by rewrite IH, tick_writes_complete.
Qed.


(** *** The MQTT callback *)

Section Callback.
Context {decoder : JsonDecoder}.

(** A message either leaves the globals alone or installs both times and
    clears the recorded minute; the known device state is never touched. *)
Lemma on_message_cases payload st :
  (result (on_message payload) st ≠ ScheduleUpdated
   ∧ exec (on_message payload) st = st)
  ∨ ∃ on off,
      on_message payload st
      = (ScheduleUpdated,
         {| current_schedule := {| on_time := Some on; off_time := Some off |};
            arduino := arduino st;
            last_command_sent_minute := None;
            last_known_state := last_known_state st;
            last_serial_connect_attempt := last_serial_connect_attempt st |},
         []).
Proof.
  unfold on_message, result, exec.
  repeat case_match; try (left; by split); right; eauto.
Qed.

Lemma on_message_accepts payload members on off st :
  json_loads payload = Decoded (JObj members) →
  members !! "on_time" = Some (JStr on) →
  members !! "off_time" = Some (JStr off) →
  strptime_str on = inr () →
  strptime_str off = inr () →
  on_message payload st
  = (ScheduleUpdated,
     {| current_schedule := {| on_time := Some on; off_time := Some off |};
        arduino := arduino st;
        last_command_sent_minute := None;
        last_known_state := last_known_state st;
        last_serial_connect_attempt := last_serial_connect_attempt st |},
     []).
Proof.
  intros Hload Hon Hoff Von Voff. unfold on_message.
  rewrite Hload; cbn. rewrite Hon, Hoff; cbn.
  rewrite ?bool_decide_eq_true_2 by eauto; cbn.
  by rewrite Von, Voff.
Qed.

Lemma on_message_rejects payload st :
  result (on_message payload) st ≠ ScheduleUpdated →
  exec (on_message payload) st = st.
Proof.
  intros Hres. destruct (on_message_cases payload st) as [[_ H]|(on & off & H)];
    [done|]. unfold result in Hres. by rewrite H in Hres.
Qed.

Lemma on_message_bad_time payload members on_value off_value st :
  json_loads payload = Decoded (JObj members) →
  members !! "on_time" = Some on_value →
  members !! "off_time" = Some off_value →
  (∃ e, strptime on_value = inl e) ∨ (∃ e, strptime off_value = inl e) →
  result (on_message payload) st ≠ ScheduleUpdated
  ∧ exec (on_message payload) st = st.
Proof.
  intros Hload Hon Hoff Hbad.
  assert (result (on_message payload) st ≠ ScheduleUpdated) as Hres.
  { unfold on_message, result. rewrite Hload; cbn. rewrite Hon, Hoff; cbn.
    rewrite ?bool_decide_eq_true_2 by eauto; cbn.
    destruct Hbad as [[e He]|[e He]]; rewrite He;
      repeat case_match; done. }
  split; [done|]. by apply on_message_rejects.
Qed.

(** *** States of a running controller *)

Lemma startup_consistent env : debounce_consistent (exec (startup env) initial_state).
Proof.
  destruct env as [? ? ? ?]; unfold initial_state, debounce_consistent.
  unfold_prog; split_tests; intuition congruence.
Qed.

Lemma reconnect_check_consistent env st :
  debounce_consistent st → debounce_consistent (exec (reconnect_check env) st).
Proof.
  unfold debounce_consistent. intros [Hopen Hunset].
  crush_phase st env; intuition congruence.
Qed.

Lemma schedule_logic_consistent env st :
  debounce_consistent st → debounce_consistent (exec (schedule_logic env) st).
Proof.
  unfold debounce_consistent. intros [Hopen Hunset].
  crush_phase st env; intuition congruence.
Qed.

Lemma on_message_consistent payload st :
  debounce_consistent st → debounce_consistent (exec (on_message payload) st).
Proof.
  intros Hst. destruct (on_message_cases payload st) as [[_ ->]|(on & off & H)];
    [done|]. unfold exec; rewrite H. unfold debounce_consistent; cbn.
  split; [done|]. intros [=].
Qed.

Lemma reachable_consistent st : reachable st → debounce_consistent st.
Proof.
  induction 1 as [env|env st _ IH|payload st _ IH].
  - apply startup_consistent.
  - rewrite exec_tick.
    by apply schedule_logic_consistent, reconnect_check_consistent.
  - by apply on_message_consistent.
Qed.
End Callback.

(** *** Reconnect gating *)

Lemma Qgt_bool_false x y : (x <= y)%Q → Qgt_bool x y = false.
Proof. intros Hle. unfold Qgt_bool. apply Qle_bool_iff in Hle. by rewrite Hle. Qed.

Lemma Qgt_bool_true x y : (y < x)%Q → Qgt_bool x y = true.
Proof.
  intros Hlt. unfold Qgt_bool. destruct (Qle_bool x y) eqn:Hle; [|done].
  apply Qle_bool_iff in Hle. by apply Qlt_not_le in Hlt.
Qed.

Lemma tick_waits env st :
  (now env - last_serial_connect_attempt st <= SERIAL_RECONNECT_DELAY_SECONDS)%Q →
  existsb is_connect_attempt (trace (tick env) st) = false
  ∧ last_serial_connect_attempt (exec (tick env) st)
    = last_serial_connect_attempt st
  ∧ (serial_ready st = false → tick env st = ((), st, [])).
Proof.
  intros Hgap%Qgt_bool_false.
  rewrite (tick_eta env st), exec_tick, trace_tick. unfold exec, trace.
  rewrite (reconnect_check_waiting _ _ Hgap); cbn.
  split; [apply schedule_logic_no_connect|].
  split; [apply schedule_logic_attempt|].
  intros Hdown. by rewrite (schedule_logic_down _ _ Hdown).
Qed.

Lemma run_waits envs st :
  Forall (λ env, (now env - last_serial_connect_attempt st
                  <= SERIAL_RECONNECT_DELAY_SECONDS)%Q) envs →
  existsb is_connect_attempt (trace (run envs) st) = false
  ∧ last_serial_connect_attempt (exec (run envs) st)
    = last_serial_connect_attempt st
  ∧ (serial_ready st = false → run envs st = ((), st, [])).
Proof.
  revert st. induction envs as [|env rest IH]; intros st Hall; [done|].
  apply Forall_cons in Hall as [Hgap Hrest].
  destruct (tick_waits env st Hgap) as (Hnone & Hsame & Hidle).
  rewrite <- Hsame in Hrest. destruct (IH _ Hrest) as (IHnone & IHsame & IHidle).
  rewrite trace_run_cons, exec_run_cons, existsb_app, Hnone, IHnone, IHsame.
  repeat split; [done|]. intros Hdown.
  specialize (Hidle Hdown).
  assert (exec (tick env) st = st) as Hst by (unfold exec; by rewrite Hidle).
  rewrite Hst in IHidle.
  cbn [run]. unfold mbind, prog_bind. by rewrite Hidle, (IHidle Hdown).
Qed.

Lemma tick_failure env st :
  existsb is_failed_write (trace (tick env) st) = true →
  serial_ready (exec (tick env) st) = false
  ∧ last_command_sent_minute (exec (tick env) st)
    = last_command_sent_minute (exec (reconnect_check env) st)
  ∧ last_command_sent_minute (exec (tick env) st) ≠ Some (now_str env)
  ∧ write_attempts (trace (tick env) st) ≠ [].
Proof.
  rewrite trace_tick, exec_tick, existsb_app, reconnect_check_no_failure; cbn.
  intros (_ & Hnone & Hsame & Hne & Hwrote)%schedule_logic_failure.
  rewrite write_attempts_app, reconnect_check_writes; cbn.
  unfold serial_ready. rewrite Hnone, Hsame. done.
Qed.

Lemma tick_attempt_time env st :
  last_serial_connect_attempt (exec (tick env) st)
  = if existsb is_connect_attempt (trace (tick env) st)
    then now env else last_serial_connect_attempt st.
Proof.
  rewrite exec_tick, trace_tick, existsb_app, schedule_logic_no_connect.
  rewrite schedule_logic_attempt, orb_false_r.
  apply reconnect_check_attempt_time.
Qed.


(** *** The schedule evaluator *)

(** C7: on an iteration where the serial link is connected, the current
    minute equals [on_time], no command was recorded for this minute and the
    device is known to be on, nothing is written to the device (the trace of
    the iteration is empty) and the only change to the globals is that
    [last_command_sent_minute] becomes the current minute. *)
Theorem state_skip_records_minute env st :
  serial_ready st = true →
  on_time (current_schedule st) = Some (now_str env) →
  last_command_sent_minute st ≠ Some (now_str env) →
  last_known_state st = Some "1" →
  trace (tick env) st = []
  ∧ exec (tick env) st = set_last_command_sent_minute (Some (now_str env)) st.
Proof.
  intros Hready Hon Hmin Hknown.
  rewrite exec_tick, trace_tick. unfold exec, trace.
  rewrite (reconnect_check_ready _ _ Hready); cbn.
  by rewrite (schedule_logic_already_on _ _ Hready Hon Hmin Hknown).
Qed.

Lemma state_skip_records_minute_witness :
  trace (tick (at_time 86400 "07:00" OpenException WriteOk))
        (set_last_command_sent_minute (Some "19:00") switched_on_state) = []
  ∧ exec (tick (at_time 86400 "07:00" OpenException WriteOk))
         (set_last_command_sent_minute (Some "19:00") switched_on_state)
    = switched_on_state.
Proof.
  apply (state_skip_records_minute
           (at_time 86400 "07:00" OpenException WriteOk)
           (set_last_command_sent_minute (Some "19:00") switched_on_state));
    [reflexivity | reflexivity | discriminate | reflexivity].
Defined.



(** C4, as stated, fails: the port was opened at time 0 and the schedule
    is 07:00/19:00; the write of the iteration at time 100 times out, the
    iteration at time 101 reopens the port and writes again: two commands
    are written in the minute 07:00. *)
Lemma failed_write_is_written_again :
  ¬ one_write_per_minute "07:00"
      [at_time 100 "07:00" OpenException WriteTimeout;
       at_time 101 "07:00" (Opened open_port) WriteOk]
      (armed_state 0).
Proof.
  unfold one_write_per_minute. intros Hone.
  assert (2 ≤ 1)%nat as Habsurd; [|lia].
  apply Hone. repeat constructor.
Qed.

(** A schedule update between two iterations of one minute lets a second
    command complete in that minute: ON at 07:00, then an update that makes
    07:00 the off time, then OFF at 07:00. *)
Lemma update_allows_second_command :
  let env := at_time 30 "07:00" OpenException WriteOk in
  let st1 := exec (tick env) (armed_state 0) in
  let st2 := exec (on_message (decoder := loads) (schedule_text "06:00" "07:00"))
                  st1 in
  sent_commands (trace (tick env) (armed_state 0)) = ["1"]
  ∧ sent_commands (trace (tick env) st2) = ["0"].
Proof. split; vm_compute; reflexivity. Qed.

(** C4, amended: over any run of iterations that read the same wall-clock
    minute, with no schedule update between them, from any state and
    whatever the device does, at most one command is written to completion
    (a failed write may be made again), and when no write fails at most one
    write is attempted at all; and from a state of a running controller with
    the schedule 07:00/19:00, the device state unknown and the port
    connected, three iterations reading 07:00 whose first write succeeds
    make the one device call that writes ["1"]. *)
Theorem one_command_per_minute :
  (∀ m envs st,
     Forall (λ env, now_str env = m) envs →
     (length (sent_commands (trace (run envs) st)) ≤ 1)%nat)
  ∧ (∀ m envs st,
       Forall (λ env, now_str env = m) envs →
       Forall (λ env, write_result env = WriteOk) envs →
       (length (write_attempts (trace (run envs) st)) ≤ 1)%nat)
  ∧ (∀ (decoder : JsonDecoder) env1 env2 env3 st,
       reachable st →
       current_schedule st = day_schedule →
       last_known_state st = None →
       serial_ready st = true →
       now_str env1 = "07:00" → now_str env2 = "07:00" → now_str env3 = "07:00" →
       write_result env1 = WriteOk →
       trace (run [env1; env2; env3]) st = [SerialWrite "1" WriteOk]).
Proof.
  split; [apply run_sends_once|].
  split.
  { intros m envs st Hm Hok. rewrite run_writes_complete by done.
    by apply (run_sends_once m). }
  intros decoder env1 env2 env3 st Hreach Hsched Hknown Hready H1 H2 H3 Hwrite.
  destruct (reachable_consistent st Hreach) as [Hmin _].
  specialize (Hmin Hready Hknown).
  assert (tick env1 st
          = ((), set_last_command_sent_minute (Some "07:00")
                   (set_last_known_state (Some "1") st),
             [SerialWrite "1" WriteOk])) as Hfirst.
  { rewrite (tick_eta env1 st), exec_tick, trace_tick. unfold exec, trace.
    rewrite (reconnect_check_ready _ _ Hready); cbn.
    rewrite schedule_logic_switch_on;
      rewrite ?H1, ?Hsched, ?Hmin, ?Hknown; done. }
  rewrite trace_run_cons. unfold exec, trace. rewrite Hfirst.
  by rewrite (run_settled "07:00" [env2; env3])
    by (cbn; repeat constructor; done).
Qed.

Lemma one_command_per_minute_witness :
  let st := exec (on_message (decoder := loads) (schedule_text "07:00" "19:00"))
                 started_state in
  let env := at_time 60 "07:00" OpenException WriteOk in
  (length (sent_commands (trace (run [env; env; env]) st)) ≤ 1)%nat
  ∧ (length (write_attempts (trace (run [env; env; env]) st)) ≤ 1)%nat
  ∧ trace (run [env; env; env]) st = [SerialWrite "1" WriteOk].
Proof.
  intros st env. split; [|split].
  - apply (proj1 one_command_per_minute "07:00" [env; env; env] st).
    repeat constructor.
  - apply (proj1 (proj2 one_command_per_minute) "07:00" [env; env; env] st);
      repeat constructor.
  - apply (proj2 (proj2 one_command_per_minute) loads env env env st);
      try reflexivity.
    apply reach_message, reach_startup.
Defined.

(** C10: while no schedule has arrived ([on_time] and [off_time] both
    unset) the schedule logic of an iteration does nothing at all, and a
    whole iteration of a running controller writes no command and leaves
    [last_command_sent_minute] and [last_known_state] as they were,
    whatever the clock reads. *)
Theorem unset_schedule_is_idle (decoder : JsonDecoder) env st :
  reachable st →
  on_time (current_schedule st) = None →
  off_time (current_schedule st) = None →
  schedule_logic env st = ((), st, [])
  ∧ write_attempts (trace (tick env) st) = []
  ∧ last_command_sent_minute (exec (tick env) st) = last_command_sent_minute st
  ∧ last_known_state (exec (tick env) st) = last_known_state st.
Proof.
  intros Hreach Hon Hoff.
  destruct (reachable_consistent st Hreach) as [_ Hunset].
  destruct (Hunset Hon Hoff) as [Hmin Hknown].
  destruct (reconnect_check_unknown env st Hmin Hknown) as [Hmin' Hknown'].
  split; [by apply schedule_logic_unset|].
  rewrite exec_tick, trace_tick, write_attempts_app, reconnect_check_writes.
  assert (schedule_logic env (exec (reconnect_check env) st)
          = ((), exec (reconnect_check env) st, [])) as Hidle.
  { apply schedule_logic_unset; by rewrite reconnect_check_schedule. }
  set (st1 := exec (reconnect_check env) st) in *.
  unfold exec, trace. rewrite Hidle; cbn.
  by rewrite Hmin, Hknown.
Qed.

Lemma unset_schedule_is_idle_witness :
  let env := at_time 3600 "07:00" OpenException WriteOk in
  write_attempts (trace (tick env) started_state) = []
  ∧ last_command_sent_minute (exec (tick env) started_state) = None
  ∧ last_known_state (exec (tick env) started_state) = None.
Proof.
  intros env.
  apply (unset_schedule_is_idle loads env started_state);
    [apply reach_startup | reflexivity | reflexivity].
Defined.

(** *** Schedule updates *)

(** C1: a well-formed update arriving while the relay is known to be on.
    The store is replaced by the new pair and [last_command_sent_minute] is
    cleared, but [last_known_state] still holds ["1"] afterwards: the
    assignment in the callback does not reach the global. *)
Theorem schedule_update_keeps_known_state :
  on_message (decoder := loads) (schedule_text "06:30" "22:00") switched_on_state
  = (ScheduleUpdated,
     {| current_schedule := {| on_time := Some "06:30"; off_time := Some "22:00" |};
        arduino := Some open_port;
        last_command_sent_minute := None;
        last_known_state := Some "1";
        last_serial_connect_attempt := 0 |},
     []).
Proof. vm_compute. reflexivity. Qed.

(** C3: the update whose [on_time] is ["9:5"], not a zero-padded HH:MM
    string, is accepted by the time-format check and stored as it is. *)
Theorem unpadded_time_is_accepted :
  strict_HHMM "9:5" = false
  ∧ on_message (decoder := loads) (schedule_text "9:5" "19:00") (armed_state 0)
    = (ScheduleUpdated,
       set_current_schedule {| on_time := Some "9:5"; off_time := Some "19:00" |}
                            (armed_state 0),
       []).
Proof. split; vm_compute; reflexivity. Qed.

(** An out-of-range time is refused and the globals stay as they were. *)
Lemma out_of_range_time_is_rejected st :
  strptime_str "25:99" = inl ValueError
  ∧ result (on_message (decoder := loads) (schedule_text "07:00" "25:99")) st
    = InvalidTimeFormat
  ∧ exec (on_message (decoder := loads) (schedule_text "07:00" "25:99")) st = st.
Proof.
  split; [by vm_compute|].
  assert (result (on_message (decoder := loads) (schedule_text "07:00" "25:99")) st
          = InvalidTimeFormat) as Hres.
  { unfold on_message, result.
    replace (json_loads (schedule_text "07:00" "25:99"))
      with (Decoded (JObj (<["off_time" := JStr "25:99"]>
                             (<["on_time" := JStr "07:00"]> ∅))))
      by (by vm_compute).
    by vm_compute. }
  split; [done|]. apply on_message_rejects. by rewrite Hres.
Qed.

(** *** Reconnecting and retrying *)

(** C2, as stated, fails: the port was opened at time 0, a write times out
    at time 100, and the iteration one second later, nine seconds short of
    the reconnect delay counted from the failure, opens a connection. *)
Lemma reconnect_one_second_after_failure :
  ¬ waits_since_failure (armed_state 0)
      (at_time 100 "07:00" OpenException WriteTimeout)
      (at_time 101 "07:00" OpenSerialException WriteOk).
Proof.
  unfold waits_since_failure. intros Hwait.
  assert (true = false) as Habsurd; [|discriminate].
  apply Hwait; reflexivity.
Qed.

(** C2, amended: after an iteration in which a serial write failed the port
    is marked disconnected, and over any number of further iterations that
    start no more than the reconnect delay after the last connection
    attempt (the time kept in [last_serial_connect_attempt]: the current
    time if this iteration reconnected, the earlier value otherwise) no
    connection is attempted and nothing is written. *)
Theorem reconnect_gated_by_last_attempt env st envs :
  existsb is_failed_write (trace (tick env) st) = true →
  Forall (λ env', (now env' - last_serial_connect_attempt (exec (tick env) st)
                   <= SERIAL_RECONNECT_DELAY_SECONDS)%Q) envs →
  serial_ready (exec (tick env) st) = false
  ∧ last_serial_connect_attempt (exec (tick env) st)
    = (if existsb is_connect_attempt (trace (tick env) st)
       then now env else last_serial_connect_attempt st)
  ∧ existsb is_connect_attempt (trace (run envs) (exec (tick env) st)) = false
  ∧ write_attempts (trace (run envs) (exec (tick env) st)) = []
  ∧ last_serial_connect_attempt (exec (run envs) (exec (tick env) st))
    = last_serial_connect_attempt (exec (tick env) st).
Proof.
  intros (Hdown & _)%tick_failure Hall.
  destruct (run_waits envs _ Hall) as (Hnone & Hsame & Hidle).
  split; [done|]. split; [apply tick_attempt_time|].
  split; [done|]. split; [|done].
  unfold trace. by rewrite (Hidle Hdown).
Qed.

Lemma reconnect_gated_by_last_attempt_witness :
  let st := armed_state 95 in
  let env := at_time 100 "07:00" OpenException WriteTimeout in
  let later (t : Q) := at_time t "07:00" (Opened open_port) WriteOk in
  existsb is_connect_attempt
    (trace (run [later 101%Q; later 102%Q; later 105%Q]) (exec (tick env) st))
  = false.
Proof.
  intros st env later.
  destruct (reconnect_gated_by_last_attempt env st
              [later 101%Q; later 102%Q; later 105%Q])
    as (_ & _ & Hnone & _);
    [reflexivity | repeat constructor; discriminate | exact Hnone].
Defined.



End SubscriberProps.

(** ** Properties of the gateway *)

Module BackendProps.
Import Json Prog Backend.

Ltac unfold_handler :=
  unfold exec, trace, result, publish_to_mqtt, ws_send, skip, get, modify,
    emit, mbind, mret, prog_bind, prog_ret in *.

Ltac elem_cases H :=
  repeat (apply elem_of_cons in H as [H|H]; [by simplify_eq|]);
  by apply elem_of_nil in H.

Ltac split_handler st env :=
  destruct st as [[?|] []], env as [[] []]; unfold_handler; cbn.

Lemma handle_well_formed {decoder : JsonDecoder} env message v :
  json_loads message = Decoded v →
  well_formed v = true →
  handle_message env message
  = (sent ←
       (st ← get;
        publish_successful ← publish_to_mqtt env (mqtt_client st) message;
        ws_send env (if publish_successful : bool
                     then response_published else response_publish_failed));
     match sent with
     | Sent => mret NextMessage
     | ConnectionClosed => ws_send env response_internal_error;; mret NextMessage
     end).
Proof.
  intros Hload Hwf. unfold handle_message, well_formed in *.
  by rewrite Hload, Hwf.
Qed.

Lemma publish_to_mqtt_payloads env client payload st :
  published_payloads (trace (publish_to_mqtt env client payload) st)
  = if bool_decide (is_Some client) && mqtt_connected st then [payload] else [].
Proof.
  destruct client as [?|], st as [? []], env as [[] ?];
    unfold_handler; cbn; done.
Qed.

(** C8: for a message that decodes to an object holding both keys, the
    handler starts by calling [publish_to_mqtt] on the message exactly as it
    was received; the payloads given to the MQTT client are that message
    alone when the client exists and is connected and none otherwise; every
    publish of the exchange is on the schedule topic with the received text
    as payload; nothing after that call publishes. *)
Theorem relay_forwards_raw_payload {decoder : JsonDecoder} env message v st :
  json_loads message = Decoded v →
  well_formed v = true →
  (∃ rest,
     trace (handle_message env message) st
     = (trace (publish_to_mqtt env (mqtt_client st) message) st ++ rest)%list
     ∧ published_payloads rest = [])
  ∧ published_payloads (trace (handle_message env message) st)
    = (if bool_decide (is_Some (mqtt_client st)) && mqtt_connected st
       then [message] else [])
  ∧ ∀ topic payload,
      MqttPublish topic payload ∈ trace (handle_message env message) st →
      topic = MQTT_TOPIC ∧ payload = message.
Proof.
  intros Hload Hwf. rewrite (handle_well_formed env message v Hload Hwf).
  split; [|split].
  - split_handler st env; eexists; split; try reflexivity; done.
  - split_handler st env; done.
  - intros topic payload. split_handler st env; intros Hin; elem_cases Hin.
Qed.

Lemma relay_forwards_raw_payload_witness :
  let message := schedule_text "06:30" "22:00" in
  let st := {| mqtt_client := Some (mkClient "websocket_server_0");
               mqtt_connected := true |} in
  published_payloads
    (trace (handle_message (decoder := loads) (mkMessageEnv Published Sent) message) st)
  = [message].
Proof.
  intros message st.
  destruct (relay_forwards_raw_payload (decoder := loads)
              (mkMessageEnv Published Sent) message
              (JObj (<["off_time" := JStr "22:00"]> (<["on_time" := JStr "06:30"]> ∅)))
              st) as (_ & Hpayloads & _);
    [vm_compute; reflexivity | vm_compute; reflexivity | exact Hpayloads].
Defined.

(** C9, as stated, fails: a message that is one integer of 4301 digits is
    not an object, yet the reply is "Internal server error.", not one that
    names the format: [json.loads] raises [ValueError] on it, which the
    handler catches with [except Exception]. *)
Lemma over_long_integer_gets_internal_error :
  ¬ answers_with_format_error (decoder := loads)
      (mkMessageEnv Published Sent) (ones 4301)
      {| mqtt_client := Some (mkClient "websocket_server_0");
         mqtt_connected := true |}.
Proof.
  unfold answers_with_format_error. intros Hformat.
  destruct Hformat as (_ & r & Hfirst & Hnames).
  { intros v Hv. vm_compute in Hv. discriminate Hv. }
  vm_compute in Hfirst. injection Hfirst as <-.
  destruct Hnames as [Hname|Hname]; discriminate Hname.
Qed.

(** C9, amended: for a message that does not decode to an object holding
    both keys, the handler never calls the MQTT client, leaves the globals
    alone, and the reply it sends first is an error response:
    "Invalid format. ..." when the message decodes to something else,
    "Invalid JSON format." when the decoder raises [JSONDecodeError], and
    "Internal server error." when the decoder raises another exception;
    when the send goes through that is the only reply. *)
Theorem relay_rejects_malformed {decoder : JsonDecoder} env message st :
  (∀ v, json_loads message = Decoded v → well_formed v = false) →
  published_payloads (trace (handle_message env message) st) = []
  ∧ exec (handle_message env message) st = st
  ∧ ∃ r,
      head (replies (trace (handle_message env message) st)) = Some r
      ∧ status r = "error"
      ∧ r = match json_loads message with
            | Decoded _ => response_invalid_format
            | DecodeError => response_invalid_json
            | DecodeRaised => response_internal_error
            end
      ∧ (send_result env = Sent →
         trace (handle_message env message) st = [WsSend r]).
Proof.
  intros Hbad. unfold handle_message.
  destruct (json_loads message) as [v| |] eqn:Hload.
  - specialize (Hbad v eq_refl). unfold well_formed in Hbad. rewrite Hbad.
    split_handler st env; repeat split; eexists; repeat split; done.
  - split_handler st env; repeat split; eexists; repeat split; done.
  - split_handler st env; repeat split; eexists; repeat split; done.
Qed.

Lemma relay_rejects_malformed_witness :
  let st := {| mqtt_client := Some (mkClient "websocket_server_0");
               mqtt_connected := true |} in
  trace (handle_message (decoder := loads) (mkMessageEnv Published Sent)
                        "[7, 19]") st
  = [WsSend response_invalid_format].
Proof.
  intros st.
  destruct (relay_rejects_malformed (decoder := loads)
              (mkMessageEnv Published Sent) "[7, 19]" st)
    as (_ & _ & r & _ & _ & Hr & Honly).
  { intros v Hv. vm_compute in Hv. by simplify_eq. }
  rewrite (Honly eq_refl), Hr. reflexivity.
Defined.
End BackendProps.

(** ** Further properties of the controller *)

Module SubscriberMore.
Import Json Strptime Prog Subscriber SubscriberProps.

(** *** The time-format check *)

Lemma digit_cases c :
  is_digit c = true →
  c ∈ ["0"; "1"; "2"; "3"; "4"; "5"; "6"; "7"; "8"; "9"]%char.
Proof.
  destruct c as [[] [] [] [] [] [] [] []]; intros Hdigit;
    try discriminate Hdigit; set_solver.
Qed.

Ltac digit_split c H :=
  apply digit_cases in H;
  repeat (apply elem_of_cons in H as [->|H]); [..|by apply elem_of_nil in H].

Lemma hour_matches h1 h2 rest :
  is_digit h1 = true → is_digit h2 = true →
  ((nat_of_ascii h1 - 48) * 10 + (nat_of_ascii h2 - 48) <=? 23)%nat = true →
  ∃ more, remainders directive_H (h1 :: h2 :: rest) = rest :: more.
Proof.
  intros H1 H2 Hle. digit_split h1 H1; digit_split h2 H2;
    try discriminate Hle; eexists; reflexivity.
Qed.

Lemma minute_matches m1 m2 :
  is_digit m1 = true → is_digit m2 = true →
  ((nat_of_ascii m1 - 48) * 10 + (nat_of_ascii m2 - 48) <=? 59)%nat = true →
  ∃ more, remainders directive_M [m1; m2] = [] :: more.
Proof.
  intros H1 H2 Hle. digit_split m1 H1; digit_split m2 H2;
    try discriminate Hle; eexists; reflexivity.
Qed.

Lemma strict_time_passes text :
  strict_HHMM text = true → strptime_str text = inr ().
Proof.
  unfold strict_HHMM, strptime_str, re_match.
  destruct (String.list_ascii_of_string text)
    as [|h1 [|h2 [|c [|m1 [|m2 [|? ?]]]]]]; try discriminate.
  intros Hstrict. do 6 (apply andb_prop in Hstrict as [Hstrict ?]).
  assert (c = ":"%char) as -> by (by apply Ascii.eqb_eq).
  destruct (hour_matches h1 h2 [":"%char; m1; m2]) as [more Hhour]; try done.
  destruct (minute_matches m1 m2) as [more' Hminute]; try done.
  change (remainders format_HM [h1; h2; ":"%char; m1; m2])
    with (s' ← remainders directive_H [h1; h2; ":"%char; m1; m2];
          s'' ← remainders (Chr ":") s'; remainders directive_M s'').
  rewrite Hhour. cbn -[directive_M]. rewrite Hminute. done.
Qed.

(** *** Schedule updates *)

(** X1: every update whose two times are zero-padded 24-hour HH:MM strings
    is taken: the callback stores both strings as received, clears
    [last_command_sent_minute] and leaves the serial globals and
    [last_known_state] alone. *)
Theorem valid_times_are_stored {decoder : JsonDecoder} payload members on off st :
  json_loads payload = Decoded (JObj members) →
  members !! "on_time" = Some (JStr on) →
  members !! "off_time" = Some (JStr off) →
  strict_HHMM on = true →
  strict_HHMM off = true →
  on_message payload st
  = (ScheduleUpdated,
     {| current_schedule := {| on_time := Some on; off_time := Some off |};
        arduino := arduino st;
        last_command_sent_minute := None;
        last_known_state := last_known_state st;
        last_serial_connect_attempt := last_serial_connect_attempt st |},
     []).
Proof.
  intros Hload Hon Hoff Von Voff.
  by apply (on_message_accepts payload members); try apply strict_time_passes.
Qed.

Lemma valid_times_are_stored_witness :
  current_schedule
    (exec (on_message (decoder := loads) (schedule_text "23:59" "00:00"))
          switched_on_state)
  = {| on_time := Some "23:59"; off_time := Some "00:00" |}.
Proof.
  unfold exec.
  rewrite (valid_times_are_stored (decoder := loads)
             (schedule_text "23:59" "00:00")
             (<["off_time" := JStr "00:00"]> (<["on_time" := JStr "23:59"]> ∅))
             "23:59" "00:00" switched_on_state);
    [reflexivity | vm_compute; reflexivity | vm_compute; reflexivity
    | vm_compute; reflexivity | reflexivity | reflexivity].
Defined.

(** X2: an update that is not taken changes nothing.  A payload the decoder
    cannot decode (with [JSONDecodeError] or any other exception), a value
    that is not an object with both keys, and an object one of whose two
    times is refused by the time check, that time being not a string or a
    string of ASCII text not matching the format, each leave every global
    as it was; in particular a good [on_time] is not stored when [off_time]
    is refused. *)
Theorem refused_update_changes_nothing {decoder : JsonDecoder} payload st :
  (json_loads payload = DecodeError →
   on_message payload st = (JsonDecodeFailed, st, []))
  ∧ (json_loads payload = DecodeRaised →
     on_message payload st = (ProcessingError, st, []))
  ∧ (∀ v, json_loads payload = Decoded v →
          is_dict v && has_key "on_time" v && has_key "off_time" v = false →
          on_message payload st = (InvalidScheduleFormat, st, []))
  ∧ (∀ members on_value off_value,
       json_loads payload = Decoded (JObj members) →
       members !! "on_time" = Some on_value →
       members !! "off_time" = Some off_value →
       (plain_value on_value = true ∧ ∃ e, strptime on_value = inl e)
       ∨ (plain_value off_value = true ∧ ∃ e, strptime off_value = inl e) →
       result (on_message payload) st ≠ ScheduleUpdated
       ∧ exec (on_message payload) st = st).
Proof.
  split; [|split; [|split]].
  - intros Hload. unfold on_message. by rewrite Hload.
  - intros Hload. unfold on_message. by rewrite Hload.
  - intros v Hload Hbad. unfold on_message. by rewrite Hload, Hbad.
  - intros members on_value off_value Hload Hon Hoff Hbad.
    apply (on_message_bad_time payload members on_value off_value); try done.
    destruct Hbad as [[_ Hbad]|[_ Hbad]]; [by left|by right].
Qed.

Lemma refused_update_changes_nothing_witness :
  on_message (decoder := loads) "07:00-19:00" switched_on_state
  = (JsonDecodeFailed, switched_on_state, [])
  ∧ on_message (decoder := loads) (ones 4301) switched_on_state
    = (ProcessingError, switched_on_state, [])
  ∧ on_message (decoder := loads) "[7, 19]" switched_on_state
    = (InvalidScheduleFormat, switched_on_state, [])
  ∧ exec (on_message (decoder := loads) (schedule_text "06:30" "24:00"))
         switched_on_state
    = switched_on_state.
Proof.
  destruct (refused_update_changes_nothing (decoder := loads)
              "07:00-19:00" switched_on_state) as (Hjson & _ & _ & _).
  destruct (refused_update_changes_nothing (decoder := loads)
              (ones 4301) switched_on_state) as (_ & Hraised & _ & _).
  destruct (refused_update_changes_nothing (decoder := loads)
              "[7, 19]" switched_on_state) as (_ & _ & Hshape & _).
  destruct (refused_update_changes_nothing (decoder := loads)
              (schedule_text "06:30" "24:00") switched_on_state)
    as (_ & _ & _ & Htime).
  split; [apply Hjson; vm_compute; reflexivity|].
  split; [apply Hraised; vm_compute; reflexivity|].
  split; [apply (Hshape (JArr [JNum "7"; JNum "19"])); vm_compute; reflexivity|].
  apply (Htime (<["off_time" := JStr "24:00"]> (<["on_time" := JStr "06:30"]> ∅))
               (JStr "06:30") (JStr "24:00"));
    [vm_compute; reflexivity | vm_compute; reflexivity | vm_compute; reflexivity|].
  right. split; [reflexivity|]. exists ValueError. vm_compute. reflexivity.
Defined.

(** *** Invariants of a running controller *)

Lemma startup_schedule env st :
  current_schedule (exec (startup env) st) = current_schedule st.
Proof. crush_phase st env; done. Qed.

Section Running.
Context {decoder : JsonDecoder}.

Lemma startup_in_range env : globals_in_range (exec (startup env) initial_state).
Proof.
  destruct env as [? ? ? ?]; unfold initial_state, globals_in_range.
  unfold_prog; split_tests; intuition congruence.
Qed.

Lemma reconnect_check_in_range env st :
  globals_in_range st → globals_in_range (exec (reconnect_check env) st).
Proof.
  unfold globals_in_range. intros (Hport & Hknown).
  crush_phase st env; intuition congruence.
Qed.

Lemma schedule_logic_in_range env st :
  globals_in_range st → globals_in_range (exec (schedule_logic env) st).
Proof.
  unfold globals_in_range. intros (Hport & Hknown).
  crush_phase st env; intuition congruence.
Qed.

Lemma on_message_serial payload st :
  arduino (exec (on_message payload) st) = arduino st
  ∧ last_known_state (exec (on_message payload) st) = last_known_state st
  ∧ last_serial_connect_attempt (exec (on_message payload) st)
    = last_serial_connect_attempt st.
Proof.
  destruct (on_message_cases payload st) as [[_ ->]|(on & off & Hup)];
    [done|]. unfold exec; by rewrite Hup.
Qed.

(** X4: at the start of every iteration of a running controller the port
    held in [arduino] is an open one (or none is held) and
    [last_known_state] is unset, ["0"] or ["1"].  The callback never writes
    these globals (nor the time of the last connection attempt), whatever
    the payload, and an iteration keeps them in range from any values of
    the schedule and of the recorded minute, the two globals the callback
    does write: an update cannot disturb the range wherever it lands. *)
Theorem globals_stay_in_range :
  (∀ st, reachable st → globals_in_range st)
  ∧ (∀ payload st,
       arduino (exec (on_message payload) st) = arduino st
       ∧ last_known_state (exec (on_message payload) st) = last_known_state st
       ∧ last_serial_connect_attempt (exec (on_message payload) st)
         = last_serial_connect_attempt st)
  ∧ (∀ env st schedule minute,
       globals_in_range st →
       globals_in_range
         (exec (schedule_logic env)
               (set_current_schedule schedule
                  (set_last_command_sent_minute minute
                     (exec (reconnect_check env) st))))).
Proof.
  split; [|split; [apply on_message_serial|]].
  - induction 1 as [env|env st _ IH|payload st _ IH].
    + apply startup_in_range.
    + rewrite exec_tick.
      by apply schedule_logic_in_range, reconnect_check_in_range.
    + unfold globals_in_range, serial_ready in *.
      destruct (on_message_serial payload st) as (-> & -> & _). done.
  - intros env st schedule minute Hrange.
    apply schedule_logic_in_range.
    by apply (reconnect_check_in_range env) in Hrange.
Qed.
End Running.

Lemma globals_stay_in_range_witness :
  globals_in_range
    (exec (tick (at_time 60 "07:00" OpenException WriteTimeout))
          (exec (on_message (decoder := loads) (schedule_text "07:00" "19:00"))
                started_state)).
Proof.
  apply (proj1 (globals_stay_in_range (decoder := loads))).
  apply reach_tick, reach_message, reach_startup.
Defined.

(** *** The loop and the serial port *)

(** X5: the main loop only reads the schedule.  From any globals, the serial
    set-up followed by any number of iterations, whatever the port and the
    clock do, ends with the schedule it started with. *)
Theorem main_keeps_schedule env0 envs st :
  current_schedule (exec (main env0 envs) st) = current_schedule st.
Proof.
  unfold main. by rewrite exec_bind, run_schedule, startup_schedule.
Qed.

Lemma Qgt_bool_lt x y : Qgt_bool x y = true → (y < x)%Q.
Proof.
  unfold Qgt_bool. intros Hgt. apply Qnot_le_lt. intros Hle%Qle_bool_iff.
  by rewrite Hle in Hgt.
Qed.

Lemma reconnect_check_attempt_cases env st :
  reconnect_check env st = ((), st, [])
  ∧ (serial_ready st = true
     ∨ Qgt_bool (now env - last_serial_connect_attempt st)
                SERIAL_RECONNECT_DELAY_SECONDS = false)
  ∨ serial_ready st = false
    ∧ Qgt_bool (now env - last_serial_connect_attempt st)
               SERIAL_RECONNECT_DELAY_SECONDS = true
    ∧ trace (reconnect_check env) st
      = [SerialOpen SERIAL_PORT SERIAL_BAUDRATE SERIAL_TIMEOUT WRITE_TIMEOUT]
    ∧ last_serial_connect_attempt (exec (reconnect_check env) st) = now env
    ∧ last_known_state (exec (reconnect_check env) st) = None
    ∧ current_schedule (exec (reconnect_check env) st) = current_schedule st
    ∧ match open_result env with
      | Opened ser =>
          if is_open ser
          then arduino (exec (reconnect_check env) st) = Some ser
               ∧ last_command_sent_minute (exec (reconnect_check env) st) = None
          else arduino (exec (reconnect_check env) st) = None
               ∧ last_command_sent_minute (exec (reconnect_check env) st)
                 = last_command_sent_minute st
      | _ => arduino (exec (reconnect_check env) st) = None
             ∧ last_command_sent_minute (exec (reconnect_check env) st)
               = last_command_sent_minute st
      end.
Proof.
  destruct st as [[? ?] [[? ?]|] ? ? ?], env as [? ? ? ?];
    unfold_prog; split_tests; try (left; split; [done|auto]; fail);
    right; repeat split; done.
Qed.

(** X6: what a reconnect does.  An iteration that finds the port down more
    than the reconnect delay after the last attempt makes exactly one call
    to open the configured port, records the current time as the last
    attempt and forgets the device state; if the port comes up open it is
    kept and [last_command_sent_minute] is cleared too, otherwise no port is
    held and [last_command_sent_minute] keeps its value.  An iteration that
    finds the port up, or the delay not yet over, does none of this. *)
Theorem reconnect_outcome env st :
  (serial_ready st = false →
   (SERIAL_RECONNECT_DELAY_SECONDS < now env - last_serial_connect_attempt st)%Q →
   trace (reconnect_check env) st
   = [SerialOpen SERIAL_PORT SERIAL_BAUDRATE SERIAL_TIMEOUT WRITE_TIMEOUT]
   ∧ last_serial_connect_attempt (exec (reconnect_check env) st) = now env
   ∧ last_known_state (exec (reconnect_check env) st) = None
   ∧ match open_result env with
     | Opened ser =>
         if is_open ser
         then arduino (exec (reconnect_check env) st) = Some ser
              ∧ last_command_sent_minute (exec (reconnect_check env) st) = None
         else arduino (exec (reconnect_check env) st) = None
              ∧ last_command_sent_minute (exec (reconnect_check env) st)
                = last_command_sent_minute st
     | _ => arduino (exec (reconnect_check env) st) = None
            ∧ last_command_sent_minute (exec (reconnect_check env) st)
              = last_command_sent_minute st
     end)
  ∧ (serial_ready st = true
     ∨ (now env - last_serial_connect_attempt st
        <= SERIAL_RECONNECT_DELAY_SECONDS)%Q →
     reconnect_check env st = ((), st, [])).
Proof.
  split.
  - intros Hdown Hgap%Qgt_bool_true.
    destruct (reconnect_check_attempt_cases env st)
      as [[_ [Hup|Hwait]]|(_ & _ & Htrace & Htime & Hknown & _ & Hport)];
      [congruence | congruence | done].
  - intros [Hup|Hwait%Qgt_bool_false].
    + by apply reconnect_check_ready.
    + by apply reconnect_check_waiting.
Qed.

Lemma reconnect_outcome_witness :
  let st := set_last_command_sent_minute (Some "07:00")
              (set_arduino None switched_on_state) in
  let env := at_time 11 "07:00" (Opened open_port) WriteOk in
  arduino (exec (reconnect_check env) st) = Some open_port
  ∧ last_command_sent_minute (exec (reconnect_check env) st) = None
  ∧ last_known_state (exec (reconnect_check env) st) = None.
Proof.
  intros st env.
  destruct (proj1 (reconnect_outcome env st)) as (_ & _ & Hknown & Hport);
    [reflexivity | reflexivity |].
  destruct Hport as [Hport Hminute]. repeat split; assumption.
Defined.

Lemma tick_attempt_gap env st :
  existsb is_connect_attempt (trace (tick env) st) = true →
  serial_ready st = false
  ∧ (SERIAL_RECONNECT_DELAY_SECONDS < now env - last_serial_connect_attempt st)%Q.
Proof.
  rewrite trace_tick, existsb_app, schedule_logic_no_connect, orb_false_r.
  intros Hattempt.
  destruct (reconnect_check_attempt_cases env st)
    as [[Hidle _]|(Hdown & Hgap%Qgt_bool_lt & _)]; [|done].
  unfold trace in Hattempt. by rewrite Hidle in Hattempt.
Qed.

(** X7: connection attempts are spaced out.  Over any sequence of
    iterations, from any state, each iteration that tries to open the port
    reads a clock more than the reconnect delay after the previous attempt,
    the first of them more than the delay after the attempt recorded in
    [last_serial_connect_attempt]; for the whole of [main] that first
    reference is the clock read right after the initial set-up. *)
Theorem connection_attempts_are_spaced :
  (∀ envs st,
     spaced (last_serial_connect_attempt st) (attempt_times envs st))
  ∧ (∀ env0 envs,
       spaced (now env0)
              (attempt_times envs (exec (startup env0) initial_state))).
Proof.
  assert (∀ envs st,
            spaced (last_serial_connect_attempt st) (attempt_times envs st))
    as Hspaced.
  { induction envs as [|env rest IH]; intros st; [done|].
    cbn [attempt_times]. specialize (IH (exec (tick env) st)).
    rewrite tick_attempt_time in IH.
    destruct (existsb is_connect_attempt (trace (tick env) st)) eqn:Hattempt;
      [|done].
    split; [|done]. by apply tick_attempt_gap. }
  split; [done|]. intros env0 envs.
  specialize (Hspaced envs (exec (startup env0) initial_state)).
  replace (last_serial_connect_attempt (exec (startup env0) initial_state))
    with (now env0) in Hspaced; [done|].
  destruct env0 as [? ? ? ?]. unfold_prog; split_tests; done.
Qed.

Lemma exec_main env0 envs st :
  exec (main env0 envs) st = exec (run envs) (exec (startup env0) st).
Proof. unfold main. by rewrite exec_bind. Qed.

Lemma trace_main env0 envs st :
  trace (main env0 envs) st
  = (trace (startup env0) st ++ trace (run envs) (exec (startup env0) st))%list.
Proof. unfold main. by rewrite trace_bind. Qed.

Lemma known_after_app evs1 evs2 known :
  known_after (evs1 ++ evs2) known = known_after evs2 (known_after evs1 known).
Proof. apply fold_left_app. Qed.

Lemma startup_known env st :
  last_known_state (exec (startup env) st)
  = known_after (trace (startup env) st) (last_known_state st).
Proof. crush_phase st env; done. Qed.

Lemma reconnect_check_known env st :
  last_known_state (exec (reconnect_check env) st)
  = known_after (trace (reconnect_check env) st) (last_known_state st).
Proof. crush_phase st env; done. Qed.

Lemma schedule_logic_known env st :
  last_known_state (exec (schedule_logic env) st)
  = known_after (trace (schedule_logic env) st) (last_known_state st).
Proof. crush_phase st env; done. Qed.

Lemma run_known envs st :
  last_known_state (exec (run envs) st)
  = known_after (trace (run envs) st) (last_known_state st).
Proof.
  revert st. induction envs as [|env rest IH]; intros st; [done|].
  rewrite exec_run_cons, trace_run_cons, known_after_app, IH.
  by rewrite exec_tick, trace_tick, known_after_app, schedule_logic_known,
    reconnect_check_known.
Qed.

(** X8: [last_known_state] is determined by the calls made on the serial
    device.  After the set-up and any number of iterations it is what a
    replay of the trace gives: unset after every call that opens the port,
    the command after every write that completed, unchanged by a failed
    write or a close. *)
Theorem known_state_replays_trace env0 envs st :
  last_known_state (exec (main env0 envs) st)
  = known_after (trace (main env0 envs) st) (last_known_state st).
Proof.
  by rewrite exec_main, trace_main, known_after_app, run_known, startup_known.
Qed.

Lemma schedule_logic_port_use env st :
  (write_attempts (trace (schedule_logic env) st) ≠ [] → serial_ready st = true)
  ∧ (∀ p, SerialClose p ∈ trace (schedule_logic env) st →
          existsb is_failed_write (trace (schedule_logic env) st) = true
          ∧ ∃ ser, arduino st = Some ser ∧ port ser = p ∧ is_open ser = true)
  ∧ (length (trace (schedule_logic env) st) ≤ 2)%nat.
Proof.
  crush_phase st env; (split; [done|]); (split; [|lia]);
    intros p Hin;
    repeat (apply elem_of_cons in Hin as [Hin|Hin]; simplify_eq);
    try (by apply elem_of_nil in Hin); eauto.
Qed.

(** X9: how an iteration uses the port.  It tries to open the port only
    when none is open at its start; it writes only to an open port, one that
    was open at its start or that it has just opened; it closes a port only
    after a write on it failed, and then the port it was holding; and it
    makes at most three device calls. *)
Theorem iteration_respects_port env st :
  (existsb is_connect_attempt (trace (tick env) st) = true →
   serial_ready st = false)
  ∧ (write_attempts (trace (tick env) st) ≠ [] →
     serial_ready st = true
     ∨ ∃ ser, open_result env = Opened ser ∧ is_open ser = true
              ∧ existsb is_connect_attempt (trace (tick env) st) = true)
  ∧ (∀ p, SerialClose p ∈ trace (tick env) st →
          existsb is_failed_write (trace (tick env) st) = true
          ∧ ∃ ser, port ser = p ∧ is_open ser = true
                   ∧ (arduino st = Some ser ∨ open_result env = Opened ser))
  ∧ (length (trace (tick env) st) ≤ 3)%nat.
Proof.
  split; [by intros (Hdown & _)%tick_attempt_gap|].
  rewrite trace_tick.
  destruct (schedule_logic_port_use env (exec (reconnect_check env) st))
    as (Hwrite & Hclose & Hlen).
  destruct (reconnect_check_attempt_cases env st)
    as [[Hidle _]|(Hdown & _ & Htrace & _ & _ & _ & Hport)].
  - unfold exec, trace in *. rewrite Hidle in *. cbn [fst snd app] in *.
    split; [auto|]. split; [|lia]. intros p Hin.
    destruct (Hclose p Hin) as (Hfail & ser & Hser & Hp & Hopen). eauto 10.
  - assert (arduino (exec (reconnect_check env) st)
            = match open_result env with
              | Opened ser => if is_open ser then Some ser else None
              | _ => None
              end) as Hheld.
    { destruct (open_result env) as [ser| |]; [destruct (is_open ser)|..];
        by destruct Hport. }
    rewrite write_attempts_app, existsb_app, Htrace. cbn [app length].
    split; [|split; [|lia]].
    + intros Hattempt. right. specialize (Hwrite Hattempt).
      unfold serial_ready in Hwrite. rewrite Hheld in Hwrite.
      destruct (open_result env) as [ser| |]; try discriminate.
      destruct (is_open ser) eqn:Hopen; try discriminate. eauto.
    + intros p [Hin|Hin]%elem_of_cons; [discriminate|].
      destruct (Hclose p Hin) as (Hfail & ser & Hser & Hp & Hopen).
      split; [done|]. exists ser. repeat split; try done. right.
      rewrite Hheld in Hser.
      destruct (open_result env) as [ser'| |]; try discriminate.
      destruct (is_open ser'); congruence.
Qed.

Lemma iteration_respects_port_witness :
  let env := at_time 100 "07:00" OpenException WriteTimeout in
  existsb is_failed_write (trace (tick env) (armed_state 0)) = true
  ∧ ∃ ser, port ser = SERIAL_PORT ∧ is_open ser = true
           ∧ (arduino (armed_state 0) = Some ser
              ∨ open_result env = Opened ser).
Proof.
  intros env.
  apply (proj1 (proj2 (proj2 (iteration_respects_port env (armed_state 0))))
               SERIAL_PORT).
  vm_compute. set_solver.
Defined.

(** X10: closing is idempotent.  [close_serial_safely] closes the port
    exactly when one is held open, leaves no port held, touches no other
    global, and a second call right after it makes no device call and
    changes nothing. *)
Theorem close_is_idempotent st :
  trace close_serial_safely st
  = (if serial_ready st
     then match arduino st with
          | Some ser => [SerialClose (port ser)]
          | None => []
          end
     else [])
  ∧ exec close_serial_safely st = set_arduino None st
  ∧ close_serial_safely (exec close_serial_safely st)
    = ((), exec close_serial_safely st, [])
  ∧ (close_serial_safely;; close_serial_safely) st = close_serial_safely st.
Proof.
  destruct st as [[? ?] [[? []]|] ? ? ?]; unfold_prog; cbn; done.
Qed.

(** *** The OFF branch and updates within a minute *)

Lemma reconnect_then_logic env st :
  serial_ready st = true →
  tick env st = schedule_logic env st.
Proof.
  intros Hready. rewrite (tick_eta env st), exec_tick, trace_tick.
  unfold exec, trace. rewrite (reconnect_check_ready _ _ Hready); cbn.
  by destruct (schedule_logic env st) as [[[] ?] ?].
Qed.

Lemma schedule_logic_off_cases env st :
  serial_ready st = true →
  on_time (current_schedule st) ≠ Some (now_str env) →
  off_time (current_schedule st) = Some (now_str env) →
  last_command_sent_minute st ≠ Some (now_str env) →
  schedule_logic env st
  = if bool_decide (last_known_state st = Some "0")
    then ((), set_last_command_sent_minute (Some (now_str env)) st, [])
    else match write_result env, arduino st with
         | WriteOk, _ =>
             ((), set_last_command_sent_minute (Some (now_str env))
                    (set_last_known_state (Some "0") st),
              [SerialWrite "0" WriteOk])
         | failure, Some ser =>
             ((), set_arduino None st,
              [SerialWrite "0" failure; SerialClose (port ser)])
         | _, None => ((), st, [])
         end.
Proof.
  intros Hready Hon Hoff Hmin. crush_phase st env; simplify_eq; done.
Qed.

(** X11: the OFF rule.  On an iteration with the port connected whose
    minute is [off_time] and not [on_time], and for which no command was
    recorded: if the relay is known to be off nothing is written and the
    minute is recorded; otherwise ["0"] is written, and on success the relay
    is known to be off and the minute is recorded, while on failure the port
    is closed and dropped and neither debounce global changes. *)
Theorem off_time_switches_off env st :
  serial_ready st = true →
  on_time (current_schedule st) ≠ Some (now_str env) →
  off_time (current_schedule st) = Some (now_str env) →
  last_command_sent_minute st ≠ Some (now_str env) →
  (last_known_state st = Some "0" →
   tick env st = ((), set_last_command_sent_minute (Some (now_str env)) st, []))
  ∧ (last_known_state st ≠ Some "0" → write_result env = WriteOk →
     tick env st
     = ((), set_last_command_sent_minute (Some (now_str env))
              (set_last_known_state (Some "0") st),
        [SerialWrite "0" WriteOk]))
  ∧ (last_known_state st ≠ Some "0" → write_result env ≠ WriteOk →
     ∃ ser, arduino st = Some ser
            ∧ tick env st
              = ((), set_arduino None st,
                 [SerialWrite "0" (write_result env); SerialClose (port ser)])).
Proof.
  intros Hready Hon Hoff Hmin.
  rewrite (reconnect_then_logic _ _ Hready).
  rewrite (schedule_logic_off_cases _ _ Hready Hon Hoff Hmin).
  split; [|split].
  - intros Hknown. by rewrite bool_decide_eq_true_2.
  - intros Hknown Hwrite. by rewrite bool_decide_eq_false_2, Hwrite.
  - intros Hknown Hwrite. rewrite bool_decide_eq_false_2 by done.
    unfold serial_ready in Hready.
    destruct (arduino st) as [ser|]; [|discriminate]. exists ser.
    split; [done|]. by destruct (write_result env).
Qed.

Lemma off_time_switches_off_witness :
  tick (at_time 43200 "19:00" OpenException WriteOk) switched_on_state
  = ((), set_last_command_sent_minute (Some "19:00")
           (set_last_known_state (Some "0") switched_on_state),
     [SerialWrite "0" WriteOk]).
Proof.
  apply (proj1 (proj2 (off_time_switches_off
                         (at_time 43200 "19:00" OpenException WriteOk)
                         switched_on_state
                         eq_refl ltac:(discriminate) eq_refl ltac:(discriminate)))
        ); [discriminate | reflexivity].
Defined.



End SubscriberMore.

(** ** Further properties of the gateway *)

Module BackendMore.
Import Json Prog Backend BackendProps.

Ltac crush_handler message st env :=
  unfold handle_message;
  destruct (json_loads message) as [?| |];
    [destruct (is_dict _ && _ && _) eqn:?| |];
    split_handler st env.

Section Gateway.
Context {decoder : JsonDecoder}.

(** *** One message *)

Lemma handle_message_client env message st :
  mqtt_client (exec (handle_message env message) st) = mqtt_client st
  ∧ (mqtt_connected (exec (handle_message env message) st) = true →
     mqtt_connected st = true).
Proof. crush_handler message st env; done. Qed.

Lemma handle_message_offline env message st :
  mqtt_client st = None ∨ mqtt_connected st = false →
  exec (handle_message env message) st = st
  ∧ published_payloads (trace (handle_message env message) st) = []
  ∧ Forall (λ r, status r = "error")
           (replies (trace (handle_message env message) st)).
Proof.
  intros Hoff. crush_handler message st env;
    destruct Hoff; simplify_eq; repeat split; repeat constructor.
Qed.

Lemma handle_message_sent env message st :
  send_result env = Sent →
  result (handle_message env message) st = NextMessage
  ∧ length (replies (trace (handle_message env message) st)) = 1%nat
  ∧ (published_payloads (trace (handle_message env message) st) = []
     ∨ published_payloads (trace (handle_message env message) st) = [message]).
Proof.
  intros Hsent. crush_handler message st env; simplify_eq; auto.
Qed.

Lemma handle_message_published env message st :
  published_payloads (trace (handle_message env message) st) = []
  ∨ published_payloads (trace (handle_message env message) st) = [message].
Proof. crush_handler message st env; auto. Qed.

(** X13: no false acknowledgement.  Whenever the handler sends a reply whose
    status is "success", the message decoded to an object with both keys,
    the client was connected, the very text received was handed to the
    client on the schedule topic, and the client confirmed the publish; and
    when all of that holds the first reply is the success response. *)
Theorem success_reply_means_published env message st :
  (∀ r, WsSend r ∈ trace (handle_message env message) st →
        status r = "success" →
        (∃ v, json_loads message = Decoded v ∧ well_formed v = true)
        ∧ is_Some (mqtt_client st)
        ∧ mqtt_connected st = true
        ∧ publish_result env = Published
        ∧ MqttPublish MQTT_TOPIC message ∈ trace (handle_message env message) st)
  ∧ ((∃ v, json_loads message = Decoded v ∧ well_formed v = true) →
     is_Some (mqtt_client st) →
     mqtt_connected st = true →
     publish_result env = Published →
     head (replies (trace (handle_message env message) st))
     = Some response_published).
Proof.
  split.
  - intros r. unfold handle_message, well_formed.
    destruct (json_loads message) as [v| |];
      [destruct (is_dict _ && _ && _) eqn:Hwf| |];
      split_handler st env; intros Hin Hstatus;
      repeat (apply elem_of_cons in Hin as [Hin|Hin];
              [simplify_eq; try discriminate Hstatus|]);
      try (by apply elem_of_nil in Hin);
      repeat split; eauto; set_solver.
  - intros (v & Hload & Hwf) Hclient Hconn Hpub.
    rewrite (handle_well_formed env message v Hload Hwf).
    destruct Hclient as [client Hclient].
    destruct st as [? ?], env as [? []]; cbn in *; simplify_eq;
      unfold_handler; cbn; done.
Qed.

(** *** One connection *)

Lemma handle_connection_cons env message rest st :
  exec (handle_connection ((env, message) :: rest)) st
  = exec (match result (handle_message env message) st with
          | NextMessage => handle_connection rest
          | HandlerEnded => skip
          end) (exec (handle_message env message) st)
  ∧ trace (handle_connection ((env, message) :: rest)) st
    = (trace (handle_message env message) st
       ++ trace (match result (handle_message env message) st with
                 | NextMessage => handle_connection rest
                 | HandlerEnded => skip
                 end) (exec (handle_message env message) st))%list.
Proof.
  cbn [handle_connection].
  by rewrite SubscriberProps.exec_bind, SubscriberProps.trace_bind.
Qed.

Lemma published_payloads_app evs1 evs2 :
  published_payloads (evs1 ++ evs2)
  = (published_payloads evs1 ++ published_payloads evs2)%list.
Proof. apply omap_app. Qed.

Lemma replies_app evs1 evs2 :
  replies (evs1 ++ evs2) = (replies evs1 ++ replies evs2)%list.
Proof. apply omap_app. Qed.

(** X14: a gateway without a connected client relays nothing.  While
    [mqtt_client] is unset or [mqtt_connected] is false, handling any
    sequence of messages of a connection hands nothing to the MQTT client,
    answers only with error replies and leaves the globals as they were. *)
Theorem offline_gateway_relays_nothing inbox st :
  mqtt_client st = None ∨ mqtt_connected st = false →
  published_payloads (trace (handle_connection inbox) st) = []
  ∧ Forall (λ r, status r = "error")
           (replies (trace (handle_connection inbox) st))
  ∧ exec (handle_connection inbox) st = st.
Proof.
  intros Hoff. induction inbox as [|[env message] rest IH].
  { repeat split. constructor. }
  destruct (handle_connection_cons env message rest st) as [-> ->].
  destruct (handle_message_offline env message st Hoff) as (-> & Hnone & Herr).
  rewrite published_payloads_app, replies_app, Hnone.
  destruct (result (handle_message env message) st).
  - destruct IH as (-> & IHerr & ->). repeat split. by apply Forall_app.
  - repeat split. by rewrite app_nil_r.
Qed.

(** X15: replies and publishes follow the inbox.  The texts handed to the
    MQTT client during a connection are, in order, some of the messages
    received, each exactly as received; and when every reply can be sent the
    handler sends exactly one reply per message. *)
Theorem replies_follow_inbox inbox st :
  published_payloads (trace (handle_connection inbox) st)
    `sublist_of` (inbox.*2)
  ∧ (Forall (λ item, send_result item.1 = Sent) inbox →
     length (replies (trace (handle_connection inbox) st)) = length inbox).
Proof.
  revert st. induction inbox as [|[env message] rest IH]; intros st.
  { split; [constructor|done]. }
  destruct (handle_connection_cons env message rest st) as [_ ->].
  rewrite published_payloads_app, replies_app, length_app. split.
  - assert (published_payloads
              (trace (match result (handle_message env message) st with
                      | NextMessage => handle_connection rest
                      | HandlerEnded => skip
                      end) (exec (handle_message env message) st))
              `sublist_of` (rest.*2)) as Hrest.
    { destruct (result (handle_message env message) st);
        [apply IH | apply sublist_nil_l]. }
    destruct (handle_message_published env message st) as [->| ->]; cbn.
    + by apply sublist_cons.
    + by apply sublist_skip.
  - intros [Hsent Hrest]%Forall_cons. cbn in Hsent.
    destruct (handle_message_sent env message st Hsent) as (-> & -> & _).
    cbn. f_equal. by apply IH.
Qed.

Lemma serve_cons_receive env message rest st :
  exec (serve (Receive env message :: rest)) st
  = exec (match result (handle_message env message) st with
          | NextMessage => serve rest
          | HandlerEnded => skip
          end) (exec (handle_message env message) st)
  ∧ trace (serve (Receive env message :: rest)) st
    = (trace (handle_message env message) st
       ++ trace (match result (handle_message env message) st with
                 | NextMessage => serve rest
                 | HandlerEnded => skip
                 end) (exec (handle_message env message) st))%list.
Proof.
  cbn [serve].
  by rewrite SubscriberProps.exec_bind, SubscriberProps.trace_bind.
Qed.

Lemma serve_client steps st :
  mqtt_client (exec (serve steps) st) = mqtt_client st
  ∧ (mqtt_connected (exec (serve steps) st) = true →
     mqtt_connected st = true ∨ existsb is_connect_ok steps = true).
Proof.
  revert st. induction steps as [|[env message|rc|rc] rest IH]; intros st.
  - split; [done|]. by left.
  - destruct (serve_cons_receive env message rest st) as [-> _].
    destruct (handle_message_client env message st) as [Hclient Hconn].
    destruct (result (handle_message env message) st).
    + destruct (IH (exec (handle_message env message) st)) as [-> IHconn].
      split; [done|]. intros [?|?]%IHconn; auto.
    + split; [done|]. auto.
  - cbn [serve existsb is_connect_ok]. rewrite SubscriberProps.exec_bind.
    destruct (IH (exec (on_connect rc) st)) as [-> IHconn].
    unfold on_connect in *.
    destruct (bool_decide (rc = 0%Z)); cbn in *; [auto|].
    split; [done|]. intros [Hup|Hlater]%IHconn; [discriminate|auto].
  - cbn [serve existsb is_connect_ok]. rewrite SubscriberProps.exec_bind.
    destruct (IH (exec (on_disconnect rc) st)) as [-> IHconn].
    split; [done|]. intros [Hup|Hlater]%IHconn; [discriminate|auto].
Qed.

Lemma callbacks_are_silent rc st :
  trace (on_connect rc) st = [] ∧ trace (on_disconnect rc) st = []
  ∧ exec (on_connect rc) st
    = set_mqtt_connected (bool_decide (rc = 0%Z)) st
  ∧ exec (on_disconnect rc) st = set_mqtt_connected false st.
Proof. unfold on_connect, on_disconnect. by case_bool_decide. Qed.

Lemma serve_offline steps st :
  mqtt_client st = None ∨ mqtt_connected st = false →
  existsb is_connect_ok steps = false →
  published_payloads (trace (serve steps) st) = [].
Proof.
  revert st. induction steps as [|[env message|rc|rc] rest IH];
    intros st Hoff Hnone; [done|..].
  - destruct (serve_cons_receive env message rest st) as [_ ->].
    destruct (handle_message_offline env message st Hoff) as (Hst & Hpub & _).
    rewrite published_payloads_app, Hpub, Hst.
    destruct (result (handle_message env message) st); [by apply IH|done].
  - cbn [existsb is_connect_ok] in Hnone.
    apply orb_false_elim in Hnone as [Hrc Hnone].
    destruct (callbacks_are_silent rc st) as (Hsilent & _ & Hexec & _).
    cbn [serve]. rewrite SubscriberProps.trace_bind, published_payloads_app.
    rewrite Hsilent, Hexec, Hrc. apply IH; [|done]. by right.
  - cbn [existsb is_connect_ok] in Hnone.
    destruct (callbacks_are_silent rc st) as (_ & Hsilent & _ & Hexec).
    cbn [serve]. rewrite SubscriberProps.trace_bind, published_payloads_app.
    rewrite Hsilent, Hexec. apply IH; [|done]. by right.
Qed.

(** X16: message handling never connects.  While a connection is served,
    with the MQTT callbacks running between its messages, [mqtt_client]
    stays as it was and [mqtt_connected] can be true at the end only if it
    was true at the start or [on_connect] ran with return code 0; a
    well-formed message whose publish raises [ValueError] is handed to the
    client and marks it disconnected, and until [on_connect] runs with
    return code 0 no later message is handed to the client. *)
Theorem handling_never_connects steps st :
  mqtt_client (exec (serve steps) st) = mqtt_client st
  ∧ (mqtt_connected (exec (serve steps) st) = true →
     mqtt_connected st = true ∨ existsb is_connect_ok steps = true)
  ∧ (∀ env message v rest,
       steps = Receive env message :: rest →
       json_loads message = Decoded v → well_formed v = true →
       is_Some (mqtt_client st) → mqtt_connected st = true →
       publish_result env = PublishValueError →
       existsb is_connect_ok rest = false →
       mqtt_connected (exec (handle_message env message) st) = false
       ∧ published_payloads (trace (serve steps) st) = [message]).
Proof.
  destruct (serve_client steps st) as [Hclient Hconn].
  split; [done|]. split; [done|].
  intros env message v rest -> Hload Hwf [client Hsome] Hup Herror Hnone.
  destruct (serve_cons_receive env message rest st) as [_ Htrace].
  assert (mqtt_connected (exec (handle_message env message) st) = false
          ∧ published_payloads (trace (handle_message env message) st)
            = [message]) as [Hdown Hpub].
  { rewrite (handle_well_formed env message v Hload Hwf).
    destruct st as [? ?], env as [? []]; cbn in *; simplify_eq;
      unfold_handler; cbn; done. }
  split; [done|].
  rewrite Htrace, published_payloads_app, Hpub.
  destruct (result (handle_message env message) st); [|done].
  by rewrite serve_offline by auto.
Qed.

(** X17: the connection callbacks switch relaying on and off.  After
    [on_connect] with return code 0 a well-formed message is handed to the
    client (when one exists); after [on_connect] with any other code, or
    after [on_disconnect], it is not, and the reply is the publish-failed
    error. *)
Theorem callbacks_switch_relaying env message v rc st :
  json_loads message = Decoded v →
  well_formed v = true →
  (is_Some (mqtt_client st) →
   published_payloads
     (trace (handle_message env message) (exec (on_connect 0) st)) = [message])
  ∧ (rc ≠ 0%Z →
     trace (handle_message env message) (exec (on_connect rc) st)
     = WsSend response_publish_failed
       :: match send_result env with
          | Sent => []
          | ConnectionClosed => [WsSend response_internal_error]
          end)
  ∧ trace (handle_message env message) (exec (on_disconnect rc) st)
    = WsSend response_publish_failed
      :: match send_result env with
         | Sent => []
         | ConnectionClosed => [WsSend response_internal_error]
         end.
Proof.
  intros Hload Hwf. rewrite (handle_well_formed env message v Hload Hwf).
  unfold on_connect, on_disconnect.
  split; [|split].
  - intros [client Hclient]. destruct st as [? ?], env as [[] []];
      cbn in *; simplify_eq; unfold_handler; cbn; done.
  - intros Hrc. rewrite bool_decide_eq_false_2 by done.
    destruct st as [[?|] ?], env as [[] []]; unfold_handler; cbn; done.
  - destruct st as [[?|] ?], env as [[] []]; unfold_handler; cbn; done.
Qed.
End Gateway.

Lemma success_reply_means_published_witness :
  let st := {| mqtt_client := Some (mkClient "websocket_server_0");
               mqtt_connected := true |} in
  head (replies (trace (handle_message (decoder := loads)
                          (mkMessageEnv Published Sent)
                          (schedule_text "06:30" "22:00")) st))
  = Some response_published.
Proof.
  intros st.
  apply (proj2 (success_reply_means_published (decoder := loads)
                  (mkMessageEnv Published Sent)
                  (schedule_text "06:30" "22:00") st));
    [|by eexists|reflexivity|reflexivity].
  exists (JObj (<["off_time" := JStr "22:00"]> (<["on_time" := JStr "06:30"]> ∅))).
  split; vm_compute; reflexivity.
Defined.

Lemma offline_gateway_relays_nothing_witness :
  let inbox := [(mkMessageEnv Published Sent, schedule_text "06:30" "22:00");
                (mkMessageEnv Published Sent, "[7, 19]")] in
  published_payloads
    (trace (handle_connection (decoder := loads) inbox) initial_state) = [].
Proof.
  intros inbox.
  apply (offline_gateway_relays_nothing (decoder := loads) inbox initial_state).
  by left.
Defined.

Lemma replies_follow_inbox_witness :
  let inbox := [(mkMessageEnv Published Sent, schedule_text "06:30" "22:00");
                (mkMessageEnv NotPublished Sent, "[7, 19]")] in
  let st := {| mqtt_client := Some (mkClient "websocket_server_0");
               mqtt_connected := true |} in
  length (replies (trace (handle_connection (decoder := loads) inbox) st)) = 2%nat.
Proof.
  intros inbox st.
  apply (proj2 (replies_follow_inbox (decoder := loads) inbox st)).
  repeat constructor.
Defined.

Lemma handling_never_connects_witness :
  let env := mkMessageEnv PublishValueError Sent in
  let message := schedule_text "06:30" "22:00" in
  let steps := [Receive env message; Connect 5;
                Receive (mkMessageEnv Published Sent) message] in
  let st := {| mqtt_client := Some (mkClient "websocket_server_0");
               mqtt_connected := true |} in
  published_payloads (trace (serve (decoder := loads) steps) st) = [message].
Proof.
  intros env message steps st.
  destruct (handling_never_connects (decoder := loads) steps st)
    as (_ & _ & Herror).
  apply (Herror env message
           (JObj (<["off_time" := JStr "22:00"]> (<["on_time" := JStr "06:30"]> ∅)))
           [Connect 5; Receive (mkMessageEnv Published Sent) message]);
    try (vm_compute; reflexivity).
  by eexists.
Defined.

Lemma callbacks_switch_relaying_witness :
  let st := {| mqtt_client := Some (mkClient "websocket_server_0");
               mqtt_connected := false |} in
  let message := schedule_text "06:30" "22:00" in
  published_payloads
    (trace (handle_message (decoder := loads) (mkMessageEnv Published Sent) message)
           (exec (on_connect 0) st))
  = [message].
Proof.
  intros st message.
  destruct (callbacks_switch_relaying (decoder := loads)
              (mkMessageEnv Published Sent) message
              (JObj (<["off_time" := JStr "22:00"]>
                       (<["on_time" := JStr "06:30"]> ∅)))
              0%Z st) as (Hon & _ & _);
    [vm_compute; reflexivity | vm_compute; reflexivity |].
  apply Hon. by eexists.
Defined.
End BackendMore.

(** ** From the gateway to the controller

    The two programs decode the same message separately.  The gateway calls
    [json.loads] on the frame as received, a [str] for a text frame and
    [bytes] for a binary one, whose encoding [json.loads] detects.  The
    controller calls [msg.payload.decode("utf-8")] and then [json.loads] on
    the text.  For a text frame the two come to the same; for a binary frame
    they need not (UTF-16 bytes decode at the gateway and raise
    [UnicodeDecodeError] at the controller), so each side has a decoder of
    its own here. *)

Module EndToEnd.
Import Json Strptime Prog.

Section Relay.
Context {gateway_decoder controller_decoder : JsonDecoder}.

Lemma handle_message_relays env message v st :
  @json_loads gateway_decoder message = Decoded v →
  Backend.well_formed v = true →
  is_Some (Backend.mqtt_client st) →
  Backend.mqtt_connected st = true →
  Backend.publish_result env = Backend.Published →
  Backend.published_payloads
    (trace (Backend.handle_message (decoder := gateway_decoder) env message) st)
  = [message]
  ∧ head (Backend.replies
            (trace (Backend.handle_message (decoder := gateway_decoder)
                      env message) st))
    = Some Backend.response_published.
Proof.
  intros Hload Hwf [client Hclient] Hconn Hpub.
  rewrite (BackendProps.handle_well_formed env message v Hload Hwf).
  destruct st as [? ?], env as [? []]; cbn in *; simplify_eq;
    BackendProps.unfold_handler; cbn; done.
Qed.

(** X18: an update in strict HH:MM form goes all the way.  When the gateway
    has a connected client that confirms the publish, a message that the
    gateway decodes to an object with both keys is answered with the success
    reply and handed to the bus unchanged; when the controller's decoding of
    what was handed to the bus is an object whose two times are zero-padded
    HH:MM strings, its callback stores exactly those two times. *)
Theorem relayed_update_reaches_store
    env message v members on off gateway controller :
  @json_loads gateway_decoder message = Decoded v →
  Backend.well_formed v = true →
  is_Some (Backend.mqtt_client gateway) →
  Backend.mqtt_connected gateway = true →
  Backend.publish_result env = Backend.Published →
  @json_loads controller_decoder message = Decoded (JObj members) →
  members !! "on_time" = Some (JStr on) →
  members !! "off_time" = Some (JStr off) →
  strict_HHMM on = true →
  strict_HHMM off = true →
  head (Backend.replies
          (trace (Backend.handle_message (decoder := gateway_decoder)
                    env message) gateway))
  = Some Backend.response_published
  ∧ Backend.published_payloads
      (trace (Backend.handle_message (decoder := gateway_decoder)
                env message) gateway)
    = [message]
  ∧ ∀ payload,
      payload ∈ Backend.published_payloads
                  (trace (Backend.handle_message (decoder := gateway_decoder)
                            env message) gateway) →
      Subscriber.current_schedule
        (exec (Subscriber.on_message (decoder := controller_decoder) payload)
              controller)
      = {| Subscriber.on_time := Some on; Subscriber.off_time := Some off |}.
Proof.
  intros Hload Hwf Hclient Hconn Hpub Hload' Hon Hoff Von Voff.
  destruct (handle_message_relays env message v gateway)
    as [Hsent Hreply]; [done..|].
  rewrite Hsent. repeat split; [done|].
  intros payload ->%list_elem_of_singleton. unfold exec.
  by rewrite (SubscriberProps.on_message_accepts message members on off)
    by auto using SubscriberMore.strict_time_passes.
Qed.

(** X19: the gateway acknowledges updates the controller drops.  The gateway
    tests only the shape of what it decodes: a gateway with a connected
    client that confirms the publish answers a message that it decodes to an
    object with both keys with the success reply and puts the message on the
    bus.  The controller's callback, given that message, changes nothing
    when its own decoding fails or raises, and when it yields an object one
    of whose two times is refused by the time check, that time being not a
    string or a string of ASCII text not matching the format. *)
Theorem gateway_acks_what_controller_drops env message v gateway controller :
  @json_loads gateway_decoder message = Decoded v →
  Backend.well_formed v = true →
  is_Some (Backend.mqtt_client gateway) →
  Backend.mqtt_connected gateway = true →
  Backend.publish_result env = Backend.Published →
  (@json_loads controller_decoder message = DecodeError
   ∨ @json_loads controller_decoder message = DecodeRaised
   ∨ ∃ members on_value off_value,
       @json_loads controller_decoder message = Decoded (JObj members)
       ∧ members !! "on_time" = Some on_value
       ∧ members !! "off_time" = Some off_value
       ∧ ((plain_value on_value = true ∧ ∃ e, strptime on_value = inl e)
          ∨ (plain_value off_value = true ∧ ∃ e, strptime off_value = inl e))) →
  head (Backend.replies
          (trace (Backend.handle_message (decoder := gateway_decoder)
                    env message) gateway))
  = Some Backend.response_published
  ∧ Backend.published_payloads
      (trace (Backend.handle_message (decoder := gateway_decoder)
                env message) gateway)
    = [message]
  ∧ exec (Subscriber.on_message (decoder := controller_decoder) message)
         controller
    = controller.
Proof.
  intros Hload Hwf Hclient Hconn Hpub Hdrop.
  destruct (handle_message_relays env message v gateway)
    as [Hsent Hreply]; [done..|].
  repeat split; [done..|].
  destruct Hdrop as [Hfail|[Hraised|(members & on_value & off_value
                                       & Hload' & Hon & Hoff & Hbad)]].
  - unfold exec, Subscriber.on_message. by rewrite Hfail.
  - unfold exec, Subscriber.on_message. by rewrite Hraised.
  - apply (SubscriberProps.on_message_bad_time message members
             on_value off_value); try done.
    destruct Hbad as [[_ Hbad]|[_ Hbad]]; [by left|by right].
Qed.
End Relay.

Lemma relayed_update_reaches_store_witness :
  let gateway := {| Backend.mqtt_client := Some (Backend.mkClient "websocket_server_0");
                    Backend.mqtt_connected := true |} in
  let message := schedule_text "06:30" "22:00" in
  Backend.published_payloads
    (trace (Backend.handle_message (decoder := loads)
              (Backend.mkMessageEnv Backend.Published Backend.Sent) message)
           gateway)
  = [message].
Proof.
  intros gateway message.
  destruct (relayed_update_reaches_store
              (gateway_decoder := loads) (controller_decoder := loads)
              (Backend.mkMessageEnv Backend.Published Backend.Sent) message
              (JObj (<["off_time" := JStr "22:00"]>
                       (<["on_time" := JStr "06:30"]> ∅)))
              (<["off_time" := JStr "22:00"]> (<["on_time" := JStr "06:30"]> ∅))
              "06:30" "22:00" gateway Subscriber.started_state)
    as (_ & Hsent & _);
    [vm_compute; reflexivity | vm_compute; reflexivity | by eexists
    | reflexivity | reflexivity | vm_compute; reflexivity
    | vm_compute; reflexivity | vm_compute; reflexivity
    | reflexivity | reflexivity | exact Hsent].
Defined.

Lemma gateway_acks_what_controller_drops_witness :
  let gateway := {| Backend.mqtt_client := Some (Backend.mkClient "websocket_server_0");
                    Backend.mqtt_connected := true |} in
  let message := "{ " +:+ quoted "on_time" +:+ ": 7, "
                      +:+ quoted "off_time" +:+ ": 19 }" in
  head (Backend.replies
          (trace (Backend.handle_message (decoder := loads)
                    (Backend.mkMessageEnv Backend.Published Backend.Sent) message)
                 gateway))
  = Some Backend.response_published
  ∧ exec (Subscriber.on_message (decoder := loads) message)
         Subscriber.switched_on_state
    = Subscriber.switched_on_state.
Proof.
  intros gateway message.
  destruct (gateway_acks_what_controller_drops
              (gateway_decoder := loads) (controller_decoder := loads)
              (Backend.mkMessageEnv Backend.Published Backend.Sent) message
              (JObj (<["off_time" := JNum "19"]> (<["on_time" := JNum "7"]> ∅)))
              gateway Subscriber.switched_on_state)
    as (Hreply & _ & Hsame);
    [vm_compute; reflexivity | vm_compute; reflexivity | by eexists
    | reflexivity | reflexivity | | by split].
  right; right.
  exists (<["off_time" := JNum "19"]> (<["on_time" := JNum "7"]> ∅)),
         (JNum "7"), (JNum "19").
  split; [vm_compute; reflexivity|].
  split; [vm_compute; reflexivity|].
  split; [vm_compute; reflexivity|].
  left. split; [reflexivity|]. by exists TypeError.
Defined.
End EndToEnd.
